(** * Meta Marketing API client: quota gate, backoff loop, pagination

    A shallow embedding of [src/meta-client.ts] (class [MetaApiClient]) and of
    the collaborators it imports ([utils/rate-limiter], [utils/error-handler],
    [utils/pagination], [utils/auth]).  Asynchronous, effectful TypeScript is
    rendered as a state-and-exception monad over an explicit [World]: the
    clock, the rate limiter's per-account windows, the replies the provider
    is going to give, and the chronological trace of observable events. *)

From Stdlib Require Import ZArith String Ascii List Bool Lia.
From stdpp Require Import base option gmap strings list pretty.
Import ListNotations.

Local Open Scope Z_scope.
Set Warnings "-register-all".

(** ** JavaScript values *)

(** Decoded JSON bodies and loosely typed arguments ([any]).  Objects keep
    their fields in insertion order. *)
Inductive JsVal : Type :=
| JUndefined
| JNull
| JBool (b : bool)
| JNum (n : Z)
| JStr (s : string)
| JArr (items : list JsVal)
| JObj (fields : list (string * JsVal)).

(** [if (v)], [v || d], [v && e]. *)
Definition truthy (v : JsVal) : bool :=
  match v with
  | JUndefined | JNull => false
  | JBool b => b
  | JNum n => negb (n =? 0)
  | JStr s => negb (String.eqb s "")
  | JArr _ | JObj _ => true
  end.

Definition nullish (v : JsVal) : bool :=
  match v with
  | JUndefined | JNull => true
  | _ => false
  end.

Fixpoint assoc {A : Type} (k : string) (l : list (string * A)) : option A :=
  match l with
  | [] => None
  | (k', v) :: l' => if String.eqb k k' then Some v else assoc k l'
  end.

(** [v.k] on a value that is neither [undefined] nor [null]; none of the
    keys read by the client is defined on a primitive or on an array. *)
Definition prop (k : string) (v : JsVal) : JsVal :=
  match v with
  | JObj fs => default JUndefined (assoc k fs)
  | _ => JUndefined
  end.

(** [v?.k] *)
Definition optProp (k : string) (v : JsVal) : JsVal :=
  if nullish v then JUndefined else prop k v.

(** [obj[k] = x] : an existing key keeps its position. *)
Fixpoint objSet (k : string) (x : JsVal) (fs : list (string * JsVal))
  : list (string * JsVal) :=
  match fs with
  | [] => [(k, x)]
  | (k', v) :: fs' =>
      if String.eqb k k' then (k, x) :: fs' else (k', v) :: objSet k x fs'
  end.

(** [{ ...a, ...b }] *)
Definition objSpread (a b : list (string * JsVal)) : list (string * JsVal) :=
  fold_left (fun acc kv => objSet (fst kv) (snd kv) acc) b a.

(** An optional string parameter ([x?: string]) tested with [if (x)]:
    [undefined] and the empty string both count as absent. *)
Definition given (x : option string) : bool :=
  match x with
  | Some s => negb (String.eqb s "")
  | None => false
  end.

(** ** Errors, events and the world *)

Inductive Method := GET | POST | DELETE.

Definition methodName (m : Method) : string :=
  match m with GET => "GET" | POST => "POST" | DELETE => "DELETE" end.

Inductive Classification :=
| TransientNetwork | ServerError | RateLimited
| AuthInvalid | Validation | PermanentError.

(** What a failed transport call looks like before classification:
    no status at all (the connection failed), or an HTTP status together
    with the provider's error code when the body carried one. *)
Record Failure := mkFailure {
  f_status : option Z;
  f_code : option Z
}.

Inductive Error :=
| QuotaExceeded (scope : string) (blockedUntil : Z)
| Raw (f : Failure)
| CallFailed (context : string) (cls : Classification) (f : Failure)
             (attempts : nat)
| JsError (msg : string)
| OutOfFuel.

Inductive Result (A : Type) :=
| Ok (a : A)
| Err (e : Error).
Arguments Ok {A} a.
Arguments Err {A} e.

Record Request := mkRequest {
  req_url : string;
  req_method : Method;
  req_headers : list (string * string);
  req_body : option string
}.

Inductive Event :=
| EvQuota (scope : string) (isWrite : bool)
| EvFetch (r : Request)
| EvSleep (ms : Z).

Definition isQuota (e : Event) : bool :=
  match e with EvQuota _ _ => true | _ => false end.

Definition isFetch (e : Event) : bool :=
  match e with EvFetch _ => true | _ => false end.

Inductive NetReply :=
| NetDown
| HttpReply (status : Z) (body : JsVal).

Record QuotaWindow := mkWindow {
  score : Z;
  windowStart : Z;
  blockedUntil : option Z
}.

Record World := mkWorld {
  clock : Z;
  limits : gmap string QuotaWindow;
  wire : list NetReply;
  trace : list Event
}.

Definition M (A : Type) : Type := World -> Result A * World.

Definition ret {A} (a : A) : M A := fun w => (Ok a, w).

Definition throw {A} (e : Error) : M A := fun w => (Err e, w).

Definition bind {A B} (c : M A) (k : A -> M B) : M B :=
  fun w =>
    match c w with
    | (Ok a, w1) => k a w1
    | (Err e, w1) => (Err e, w1)
    end.

(** [try { c } catch (error) { h }] *)
Definition catch {A} (c : M A) (h : Error -> M A) : M A :=
  fun w =>
    match c w with
    | (Ok a, w1) => (Ok a, w1)
    | (Err e, w1) => h e w1
    end.

Notation "x <- c ;; k" := (bind c (fun x => k))
  (at level 63, c at next level, right associativity).
Notation "c ;;; k" := (bind c (fun _ => k))
  (at level 63, right associativity).

Definition emit (e : Event) : M unit :=
  fun w => (Ok tt, mkWorld (clock w) (limits w) (wire w) (trace w ++ [e])).

Definition sleep (ms : Z) : M unit :=
  fun w =>
    (Ok tt,
     mkWorld (clock w + Z.max 0 ms) (limits w) (wire w) (trace w ++ [EvSleep ms])).

Definition setLimits (m : gmap string QuotaWindow) : M unit :=
  fun w => (Ok tt, mkWorld (clock w) m (wire w) (trace w)).

(** ** Quota Tracker ([utils/rate-limiter]) *)

Record QuotaConfig := mkQuotaConfig {
  maxScore : Z;
  decayMs : Z;
  blockMs : Z;
  maxWaitMs : Z
}.

Inductive Verdict :=
| Proceed
| Blocked (until : Z).

(** Modelled from the spec: the Call Cost of section 3, which the missing
    [utils/rate-limiter] assigns: reads weigh 1, writes weigh 3. *)
Definition callCost (isWriteCall : bool) : Z :=
  if isWriteCall then 3 else 1.

(** Modelled from the spec: expiry of a window, section 4.2 step 1
    (now >= window start + decay length). *)
Definition expired (cfg : QuotaConfig) (now : Z) (qw : QuotaWindow) : bool :=
  windowStart qw + decayMs cfg <=? now.

(** Modelled from the spec: the block a window is under at [now], if any
    (block-until timestamp of section 3). *)
Definition blockedAt (now : Z) (qw : QuotaWindow) : option Z :=
  match blockedUntil qw with
  | Some b => if now <? b then Some b else None
  | None => None
  end.

(** Modelled from the spec: step 3 of section 4.2, the resulting score is
    compared with the maximum and the window stored. *)
Definition settle (cfg : QuotaConfig) (now : Z) (key : string)
    (qw : QuotaWindow) (m : gmap string QuotaWindow)
  : Verdict * gmap string QuotaWindow :=
  if maxScore cfg <? score qw
  then (Blocked (now + blockMs cfg),
        <[key := mkWindow (score qw) (windowStart qw) (Some (now + blockMs cfg))]> m)
  else (Proceed, <[key := qw]> m).

(** Modelled from the spec: [utils/rate-limiter] is not among the sources.
    Section 4.2: a missing or expired window (now >= window start + decay
    length) is replaced by a new one whose score is the cost; otherwise the
    cost is added to the existing score; a resulting score above the maximum
    marks the window blocked until now + block duration.  Section 8: while a
    window is blocked no further scoring occurs. *)
Definition checkAndReserve (cfg : QuotaConfig) (now : Z) (key : string)
    (cost : Z) (m : gmap string QuotaWindow)
  : Verdict * gmap string QuotaWindow :=
  match m !! key with
  | None => settle cfg now key (mkWindow cost now None) m
  | Some qw =>
      if expired cfg now qw
      then settle cfg now key (mkWindow cost now None) m
      else
        match blockedAt now qw with
        | Some b => (Blocked b, m)
        | None =>
            settle cfg now key
              (mkWindow (score qw + cost) (windowStart qw) None) m
        end
  end.

(** Modelled from the spec: [globalRateLimiter.checkRateLimit], the entry
    point the client calls.  A blocked caller is delayed until the block
    ends when that wait is within the configured bound, and fails with
    QuotaExceeded otherwise (section 4.2, step 3). *)
Definition checkRateLimit (cfg : QuotaConfig) (accountId : string)
    (isWriteCall : bool) : M unit :=
  emit (EvQuota accountId isWriteCall) ;;;
  fun w =>
    let (v, m) :=
      checkAndReserve cfg (clock w) accountId (callCost isWriteCall) (limits w) in
    (match v with
     | Proceed => setLimits m
     | Blocked b =>
         setLimits m ;;;
         if b - clock w <=? maxWaitMs cfg
         then sleep (b - clock w)
         else throw (QuotaExceeded accountId b)
     end) w.

(** A sequence of reservations for one scope key, each with the time at
    which it is made. *)
Fixpoint reserveAll (cfg : QuotaConfig) (key : string)
    (calls : list (Z * Z)) (m : gmap string QuotaWindow)
  : list Verdict * gmap string QuotaWindow :=
  match calls with
  | [] => ([], m)
  | (now, cost) :: rest =>
      let (v, m1) := checkAndReserve cfg now key cost m in
      let (vs, m2) := reserveAll cfg key rest m1 in
      (v :: vs, m2)
  end.

Definition isProceed (v : Verdict) : bool :=
  match v with Proceed => true | Blocked _ => false end.

Definition sumCosts (calls : list (Z * Z)) : Z :=
  fold_right (fun c acc => snd c + acc) 0 calls.

(** ** Failure Classifier and Backoff Executor ([utils/error-handler]) *)

Record BackoffConfig := mkBackoffConfig {
  maxAttempts : nat;
  baseDelayMs : Z;
  maxDelayMs : Z;
  jitter : nat -> Z;
  rateLimitCodes : list Z;
  authCodes : list Z;
  validationCodes : list Z
}.

Definition memZ (x : Z) (l : list Z) : bool := existsb (Z.eqb x) l.

(** Modelled from the spec: the HTTP classes of section 4.3 (429, 5xx,
    other statuses). *)
Definition classifyStatus (s : Z) : Classification :=
  if s =? 429 then RateLimited
  else if (500 <=? s) && (s <? 600) then ServerError
  else PermanentError.

(** Modelled from the spec: the Failure Classifier of section 4.3.  The
    classes are network/transport error, HTTP 5xx, HTTP 429 or a provider
    rate-limit code, provider authentication code, provider validation
    code, other HTTP 4xx.  The provider's code tables are configuration. *)
Definition classify (cfg : BackoffConfig) (f : Failure) : Classification :=
  match f_status f with
  | None => TransientNetwork
  | Some s =>
      match f_code f with
      | Some c =>
          if memZ c (rateLimitCodes cfg) then RateLimited
          else if memZ c (authCodes cfg) then AuthInvalid
          else if memZ c (validationCodes cfg) then Validation
          else classifyStatus s
      | None => classifyStatus s
      end
  end.

(** Modelled from the spec: section 4.3 retries network errors, 5xx and
    rate-limit classifications and nothing else. *)
Definition retryable (c : Classification) : bool :=
  match c with
  | TransientNetwork | ServerError | RateLimited => true
  | AuthInvalid | Validation | PermanentError => false
  end.

(** Modelled from the spec: section 4.3, delay = base * 2^attempt plus
    jitter, capped at the maximum delay. *)
Definition backoffDelay (cfg : BackoffConfig) (attempt : nat) : Z :=
  Z.min (maxDelayMs cfg)
        (baseDelayMs cfg * 2 ^ Z.of_nat attempt + jitter cfg attempt).

(** Modelled from the spec: the loop of the missing [retryWithBackoff].
    [attemptsFrom cfg ctx op left n] runs attempt number [n] (0-indexed)
    with [left] further attempts allowed after it. *)
Fixpoint attemptsFrom {A} (cfg : BackoffConfig) (ctx : string) (op : M A)
    (left : nat) (n : nat) : M A :=
  fun w =>
    match op w with
    | (Ok a, w1) => (Ok a, w1)
    | (Err (Raw f), w1) =>
        let cls := classify cfg f in
        match left with
        | S left' =>
            if retryable cls
            then (sleep (backoffDelay cfg n) ;;;
                  attemptsFrom cfg ctx op left' (S n)) w1
            else (Err (CallFailed ctx cls f (S n)), w1)
        | O => (Err (CallFailed ctx cls f (S n)), w1)
        end
    | (Err e, w1) => (Err e, w1)
    end.

(** Modelled from the spec: [retryWithBackoff(operation, context)], the
    Backoff Executor of section 4.3.  Transport errors, 5xx and rate-limit
    failures are retried up to the maximum attempt count with an
    exponential, capped delay; authentication and validation failures are
    returned at once; every failure carries the call description and the
    attempt count. *)
Definition retryWithBackoff {A} (cfg : BackoffConfig) (op : M A)
    (ctx : string) : M A :=
  attemptsFrom cfg ctx op (Nat.pred (maxAttempts cfg)) 0.

(** [fetch(url, requestOptions)]: the next reply of the provider, or a
    transport failure when the connection gives nothing. *)
Definition fetch (r : Request) : M (Z * JsVal) :=
  emit (EvFetch r) ;;;
  fun w =>
    match wire w with
    | [] => (Err (Raw (mkFailure None None)), w)
    | NetDown :: rest =>
        (Err (Raw (mkFailure None None)),
         mkWorld (clock w) (limits w) rest (trace w))
    | HttpReply s b :: rest =>
        (Ok (s, b), mkWorld (clock w) (limits w) rest (trace w))
    end.

Definition errorCode (body : JsVal) : option Z :=
  match optProp "code" (optProp "error" body) with
  | JNum c => Some c
  | _ => None
  end.

(** Modelled from the spec: [MetaApiErrorHandler.handleResponse].  A 2xx
    reply yields its decoded body; any other reply is a failure carrying
    the status and the code of the provider's error envelope (section 6). *)
Definition handleResponse (resp : Z * JsVal) : M JsVal :=
  let (s, b) := resp in
  if (200 <=? s) && (s <? 300) then ret b
  else throw (Raw (mkFailure (Some s) (errorCode b))).

(** ** Pagination Normalizer ([utils/pagination]) *)

(** Modelled from the spec: the Paginated Result of section 3, declared in
    the missing [utils/pagination]. *)
Record PaginatedResult := mkPage {
  records : list JsVal;
  nextCursor : option string;
  prevCursor : option string;
  hasNextPage : bool;
  hasPreviousPage : bool
}.

Definition asString (v : JsVal) : option string :=
  match v with JStr s => Some s | _ => None end.

Definition isSome {A} (o : option A) : bool :=
  match o with Some _ => true | None => false end.

(** Modelled from the spec: section 4.4, path and query of an absolute URL
    relative to the provider's base. *)
Definition relativeTo (base url : string) : string :=
  let b := base +:+ "/" in
  if String.prefix b url
  then String.substring (String.length b)
         (String.length url - String.length b)%nat url
  else url.

(** Modelled from the spec: section 6, a list envelope is a decoded body
    with a record list under [data]. *)
Definition isListEnvelope (resp : JsVal) : bool :=
  match prop "data" resp with JArr _ => true | _ => false end.

Definition envelopeData (resp : JsVal) : list JsVal :=
  match prop "data" resp with JArr xs => xs | _ => [] end.

(** Modelled from the spec: [PaginationHelper.parsePaginatedResponse], the
    Pagination Normalizer of section 4.4.  Cursor tokens are taken when
    present as plain tokens; when only a full page URL is present its path
    and query relative to the provider's base stand in; the two flags are
    set from the presence of a cursor or URL alone. *)
Definition parsePaginatedResponse (base : string) (resp : JsVal)
  : PaginatedResult :=
  let paging := optProp "paging" resp in
  let cursors := optProp "cursors" paging in
  let after := asString (optProp "after" cursors) in
  let before := asString (optProp "before" cursors) in
  let next := asString (optProp "next" paging) in
  let previous := asString (optProp "previous" paging) in
  mkPage (envelopeData resp)
    (match after with Some a => Some a | None => relativeTo base <$> next end)
    (match before with Some b => Some b | None => relativeTo base <$> previous end)
    (isSome after || isSome next)
    (isSome before || isSome previous).

(** The paginated result as the JavaScript object handed to callers. *)
Definition cursorVal (c : option string) : JsVal :=
  match c with Some s => JStr s | None => JUndefined end.

Definition pageObject (p : PaginatedResult) : JsVal :=
  JObj [("data", JArr (records p));
        ("nextCursor", cursorVal (nextCursor p));
        ("prevCursor", cursorVal (prevCursor p));
        ("hasNextPage", JBool (hasNextPage p));
        ("hasPreviousPage", JBool (hasPreviousPage p))].

(** ** Credentials and platform functions ([utils/auth], built-ins) *)

(** What the client takes from its [AuthManager], from the JavaScript
    runtime ([String], [JSON.stringify], [URLSearchParams], [URL]) and from
    configuration. *)
Record Env := mkEnv {
  baseUrl : string;
  apiVersion : string;
  authHeaders : list (string * string);
  jsString : JsVal -> string;
  jsonStringify : JsVal -> string;
  searchParamsToString : list (string * string) -> string;
  parseUrl : string -> option (string * string);
  quotaConfig : QuotaConfig;
  backoffConfig : BackoffConfig
}.

(** Modelled from the spec: [AuthManager.getAccountId], section 4.1
    [normalizeScopeId]: the provider's prefix is added unless it is there. *)
Definition getAccountId (accountId : string) : string :=
  if String.prefix "act_" accountId then accountId else "act_" +:+ accountId.

(** ** The API client ([src/meta-client.ts]) *)

Fixpoint setHeader (k v : string) (hs : list (string * string))
  : list (string * string) :=
  match hs with
  | [] => [(k, v)]
  | (k', v') :: hs' =>
      if String.eqb k k' then (k, v) :: hs' else (k', v') :: setHeader k v hs'
  end.

Definition isGET (m : Method) : bool :=
  match m with GET => true | _ => false end.

(** [requestOptions] for [fetch]: a body is attached only to a call that
    is not a GET and has a truthy body. *)
Definition requestFor (env : Env) (url : string) (method : Method)
    (body : JsVal) : Request :=
  let headers := authHeaders env in
  if truthy body && negb (isGET method)
  then
    match body with
    | JStr s =>
        mkRequest url method
          (setHeader "Content-Type" "application/x-www-form-urlencoded" headers)
          (Some s)
    | _ =>
        mkRequest url method
          (setHeader "Content-Type" "application/json" headers)
          (Some (jsonStringify env body))
    end
  else mkRequest url method headers None.

(** The closure handed to [retryWithBackoff]: one transport call. *)
Definition transportCall (env : Env) (url : string) (method : Method)
    (body : JsVal) : M JsVal :=
  response <- fetch (requestFor env url method body) ;;
  handleResponse response.

(** The gate in front of the backoff loop: [if (accountId) await
    globalRateLimiter.checkRateLimit(accountId, isWriteCall)]. *)
Definition quotaGate (env : Env) (accountId : option string)
    (isWriteCall : bool) : M unit :=
  match accountId with
  | Some a =>
      if given accountId
      then checkRateLimit (quotaConfig env) a isWriteCall
      else ret tt
  | None => ret tt
  end.

Definition urlOf (env : Env) (endpoint : string) : string :=
  baseUrl env +:+ "/" +:+ apiVersion env +:+ "/" +:+ endpoint.

Definition makeRequest (env : Env) (endpoint : string) (method : Method)
    (body : JsVal) (accountId : option string) (isWriteCall : bool)
  : M JsVal :=
  let url := urlOf env endpoint in
  quotaGate env accountId isWriteCall ;;;
  retryWithBackoff (backoffConfig env)
    (transportCall env url method body)
    (methodName method +:+ " " +:+ endpoint).

(** [URLSearchParams.prototype.set] *)
Fixpoint uspSet (k v : string) (l : list (string * string))
  : list (string * string) :=
  match l with
  | [] => [(k, v)]
  | (k', v') :: l' =>
      if String.eqb k k'
      then (k, v) :: List.filter (fun kv => negb (String.eqb k (fst kv))) l'
      else (k', v') :: uspSet k v l'
  end.

Definition paramText (env : Env) (value : JsVal) : string :=
  match value with
  | JArr _ | JObj _ => jsonStringify env value
  | _ => jsString env value
  end.

Definition buildQueryString (env : Env) (params : list (string * JsVal))
  : string :=
  searchParamsToString env
    (fold_left
       (fun urlParams kv =>
          if nullish (snd kv) then urlParams
          else uspSet (fst kv) (paramText env (snd kv)) urlParams)
       params []).

(** [v.k], which throws a TypeError on [undefined] and [null]. *)
Definition getProp (k : string) (v : JsVal) : M JsVal :=
  if nullish v
  then throw (JsError "TypeError: cannot read properties of undefined")
  else ret (prop k v).

(** The elements [...v] spreads: arrays and strings are iterable. *)
Definition spreadItems (v : JsVal) : option (list JsVal) :=
  match v with
  | JArr xs => Some xs
  | JStr s => Some (map (fun c => JStr (String c "")) (list_ascii_of_string s))
  | _ => None
  end.

Definition urlText (env : Env) (v : JsVal) : string :=
  match v with JStr s => s | _ => jsString env v end.

Definition adAccountsFirstPage : string :=
  "me/adaccounts?fields=id,name,account_status,balance,currency,timezone_name,business&limit=100".

(** [nextPageUrl.pathname.substring(1) + nextPageUrl.search] *)
Definition relativePath (pathname search : string) : string :=
  String.substring 1 (String.length pathname - 1)%nat pathname +:+ search.

(** [response.paging?.next] on a decoded body that is not [null]. *)
Definition pageNext (response : JsVal) : JsVal :=
  optProp "next" (prop "paging" response).

(** The [while (nextUrl)] loop of [getAdAccounts]; [fuel] bounds the number
    of iterations. *)
Fixpoint getAdAccountsLoop (env : Env) (fuel : nat) (nextUrl : option string)
    (allAccounts : list JsVal) : M (list JsVal) :=
  match fuel with
  | O => throw OutOfFuel
  | S fuel' =>
      match nextUrl with
      | Some endpoint =>
          if given nextUrl
          then
            response <- makeRequest env endpoint GET JUndefined None false ;;
            data <- getProp "data" response ;;
            match spreadItems data with
            | None => throw (JsError "TypeError: response.data is not iterable")
            | Some items =>
                let next := pageNext response in
                if truthy next
                then
                  match parseUrl env (urlText env next) with
                  | None => throw (JsError "TypeError: Invalid URL")
                  | Some (pathname, search) =>
                      getAdAccountsLoop env fuel'
                        (Some (relativePath pathname search))
                        (allAccounts ++ items)
                  end
                else ret (allAccounts ++ items)
            end
          else ret allAccounts
      | None => ret allAccounts
      end
  end.

(** Every iteration that goes on to another one has taken a reply off the
    wire, so one more iteration than there are replies is always enough. *)
Definition getAdAccounts (env : Env) : M (list JsVal) :=
  fun w =>
    getAdAccountsLoop env (S (length (wire w))) (Some adAccountsFirstPage) [] w.

(** The optional members of the parameter objects of the list operations. *)
Record ListParams := mkListParams {
  adsetId : option string;
  campaignId : option string;
  accountId : option string;
  status : JsVal;
  fields : option (list string);
  paginationParams : list (string * JsVal)
}.

(** [fields?.join(",") || fallback] *)
Definition fieldsOr (fs : option (list string)) (fallback : string) : string :=
  match fs with
  | Some l => let s := String.concat "," l in
              if String.eqb s "" then fallback else s
  | None => fallback
  end.

Definition listQuery (env : Env) (p : ListParams) (fallback : string)
  : string :=
  let queryParams :=
    objSpread [("fields", JStr (fieldsOr (fields p) fallback))]
              (paginationParams p) in
  buildQueryString env
    (if truthy (status p)
     then objSet "effective_status"
            (JStr (jsonStringify env (JArr [status p]))) queryParams
     else queryParams).

Definition campaignFields : string :=
  "id,name,objective,status,effective_status,created_time,updated_time,start_time,stop_time,budget_remaining,daily_budget,lifetime_budget".

Definition getCampaigns (env : Env) (accountId : string) (p : ListParams)
  : M PaginatedResult :=
  let formattedAccountId := getAccountId accountId in
  let query := listQuery env p campaignFields in
  response <- makeRequest env (formattedAccountId +:+ "/campaigns?" +:+ query)
                GET JNull (Some formattedAccountId) false ;;
  ret (parsePaginatedResponse (baseUrl env) response).

Definition getCampaign (env : Env) (campaignId : string) : M JsVal :=
  makeRequest env
    (campaignId +:+ "?fields=id,name,objective,status,effective_status,created_time,updated_time,start_time,stop_time,budget_remaining,daily_budget,lifetime_budget,account_id")
    GET JUndefined None false.

Definition updateCampaign (env : Env) (campaignId : string)
    (updates : list (string * JsVal)) : M JsVal :=
  let body := buildQueryString env updates in
  makeRequest env campaignId POST (JStr body) None true.

Definition deleteCampaign (env : Env) (campaignId : string) : M JsVal :=
  makeRequest env campaignId DELETE JNull None true.

Definition missingAdSetParent : Error :=
  JsError "Either campaignId or accountId must be provided".

Definition missingParent : Error :=
  JsError "Either adsetId, campaignId, or accountId must be provided".

Definition adSetFields : string :=
  "id,name,campaign_id,status,effective_status,created_time,updated_time,start_time,end_time,daily_budget,lifetime_budget,bid_amount,billing_event,optimization_goal".

(** The string behind an optional parameter that has been tested as given. *)
Definition textOf (x : option string) : string := default "" x.

Definition getAdSets (env : Env) (p : ListParams) : M PaginatedResult :=
  endpoint <-
    (if given (campaignId p) then ret (textOf (campaignId p) +:+ "/adsets")
     else if given (accountId p)
          then ret (getAccountId (textOf (accountId p)) +:+ "/adsets")
          else throw missingAdSetParent) ;;
  let query := listQuery env p adSetFields in
  response <- makeRequest env (endpoint +:+ "?" +:+ query) GET JNull
                (if given (accountId p) then getAccountId <$> accountId p else None)
                false ;;
  ret (parsePaginatedResponse (baseUrl env) response).

(** The debugging output of [createAd] goes to the console only; a failure
    is thrown again unchanged. *)
Definition createAd (env : Env) (adSetId : string)
    (adData : list (string * JsVal)) : M JsVal :=
  let body := buildQueryString env adData in
  catch (makeRequest env (adSetId +:+ "/ads") POST (JStr body) None true)
        (fun error => throw error).

Definition adFields : string :=
  "id,name,adset_id,campaign_id,status,effective_status,created_time,updated_time,creative".


Definition getAds (env : Env) (p : ListParams) : M PaginatedResult :=
  endpoint <-
    (if given (adsetId p) then ret (textOf (adsetId p) +:+ "/ads")
     else if given (campaignId p) then ret (textOf (campaignId p) +:+ "/ads")
     else if given (accountId p)
          then ret (getAccountId (textOf (accountId p)) +:+ "/ads")
          else throw missingParent) ;;
  let query := listQuery env p adFields in
  response <- makeRequest env (endpoint +:+ "?" +:+ query) GET JNull
                (if given (accountId p) then getAccountId <$> accountId p else None)
                false ;;
  ret (parsePaginatedResponse (baseUrl env) response).

Definition getFundingSources (env : Env) (accountId : string) : M JsVal :=
  let formattedAccountId := getAccountId accountId in
  catch
    (result <- makeRequest env (formattedAccountId +:+ "/funding_source_details")
                 GET JUndefined (Some formattedAccountId) false ;;
     data <- getProp "data" result ;;
     ret (if truthy data then data else JArr []))
    (fun _ => ret (JArr [])).

Definition getAccountBusiness (env : Env) (accountId : string) : M JsVal :=
  let formattedAccountId := getAccountId accountId in
  catch
    (makeRequest env (formattedAccountId +:+ "/business")
       GET JUndefined (Some formattedAccountId) false)
    (fun _ => ret (JObj [])).

Definition batchRequest (env : Env) (requests : JsVal) : M JsVal :=
  let body :=
    buildQueryString env [("batch", JStr (jsonStringify env requests))] in
  makeRequest env "" POST (JStr body) None true.

(** ** Further operations of the client *)

Definition createCampaign (env : Env) (accountId : string)
    (campaignData : list (string * JsVal)) : M JsVal :=
  let formattedAccountId := getAccountId accountId in
  let body := buildQueryString env campaignData in
  makeRequest env (formattedAccountId +:+ "/campaigns") POST (JStr body)
    (Some formattedAccountId) true.

(** [getAccountId] applied to a member of a decoded body: the client hands
    it the [account_id] string of a campaign; on anything else its
    [startsWith] is not there to call. *)
Definition accountIdOf (v : JsVal) : M string :=
  match v with
  | JStr s => ret (getAccountId s)
  | _ => throw (JsError "TypeError: accountId.startsWith is not a function")
  end.

Definition noCampaignAccount : Error :=
  JsError "Unable to determine account ID from campaign".

(** [createAdSet]: the campaign is looked up first for its account; the
    console output is left out and a failure of the POST is thrown again
    unchanged. *)
Definition createAdSet (env : Env) (campaignId : string)
    (adSetData : list (string * JsVal)) : M JsVal :=
  campaign <- getCampaign env campaignId ;;
  accountId <- getProp "account_id" campaign ;;
  if negb (truthy accountId) then throw noCampaignAccount
  else
    formattedAccountId <- accountIdOf accountId ;;
    let requestData :=
      objSet "campaign_id" (JStr campaignId) (objSpread [] adSetData) in
    let body := buildQueryString env requestData in
    catch (makeRequest env (formattedAccountId +:+ "/adsets") POST (JStr body)
             (Some formattedAccountId) true)
          (fun error => throw error).

(** [Array.prototype.join]: [null] and [undefined] elements give the empty
    string. *)
Definition joinItems (env : Env) (sep : string) (xs : list JsVal) : string :=
  String.concat sep
    (map (fun x => if nullish x then "" else jsString env x) xs).

(** [v?.join(",")] *)
Definition optJoin (env : Env) (v : JsVal) : M JsVal :=
  match v with
  | JUndefined | JNull => ret JUndefined
  | JArr xs => ret (JStr (joinItems env "," xs))
  | _ => throw (JsError "TypeError: join is not a function")
  end.

Definition insightFields : string :=
  "impressions,clicks,spend,reach,frequency,ctr,cpc,cpm,actions,cost_per_action_type".

(** The [queryParams] object of [getInsights]: [fields] first, then the
    whole of [params] spread over it, then [time_range] assigned again. *)
Definition insightsQueryParams (params : list (string * JsVal))
    (joined : JsVal) : list (string * JsVal) :=
  let queryParams :=
    objSpread
      [("fields", if truthy joined then joined else JStr insightFields)]
      params in
  if truthy (prop "time_range" (JObj params))
  then objSet "time_range" (prop "time_range" (JObj params)) queryParams
  else queryParams.

Definition getInsights (env : Env) (objectId : string)
    (params : list (string * JsVal)) : M PaginatedResult :=
  joined <- optJoin env (prop "fields" (JObj params)) ;;
  let query := buildQueryString env (insightsQueryParams params joined) in
  response <- makeRequest env (objectId +:+ "/insights?" +:+ query)
                GET JUndefined None false ;;
  ret (parsePaginatedResponse (baseUrl env) response).

(** The query of the list operations that take [fields] and pagination
    parameters only. *)
Definition plainQuery (env : Env) (fs : option (list string))
    (rest : list (string * JsVal)) (fallback : string) : string :=
  buildQueryString env (objSpread [("fields", JStr (fieldsOr fs fallback))] rest).

Definition audienceFields : string :=
  "id,name,description,subtype,approximate_count,data_source,retention_days,creation_time,operation_status".

Definition getCustomAudiences (env : Env) (accountId : string)
    (fs : option (list string)) (rest : list (string * JsVal))
  : M PaginatedResult :=
  let formattedAccountId := getAccountId accountId in
  let query := plainQuery env fs rest audienceFields in
  response <- makeRequest env
                (formattedAccountId +:+ "/customaudiences?" +:+ query)
                GET JNull (Some formattedAccountId) false ;;
  ret (parsePaginatedResponse (baseUrl env) response).

Definition createCustomAudience (env : Env) (accountId : string)
    (audienceData : list (string * JsVal)) : M JsVal :=
  let formattedAccountId := getAccountId accountId in
  let body := buildQueryString env audienceData in
  makeRequest env (formattedAccountId +:+ "/customaudiences") POST (JStr body)
    (Some formattedAccountId) true.

(** The object [createLookalikeAudience] encodes: the caller's data, then
    [subtype] and [lookalike_spec] assigned over it. *)
Definition lookalikeData (audienceData : list (string * JsVal))
  : list (string * JsVal) :=
  objSet "lookalike_spec"
    (JObj [("ratio", prop "ratio" (JObj audienceData));
           ("country", prop "country" (JObj audienceData));
           ("type", JStr "similarity")])
    (objSet "subtype" (JStr "LOOKALIKE") (objSpread [] audienceData)).

Definition createLookalikeAudience (env : Env) (accountId : string)
    (audienceData : list (string * JsVal)) : M JsVal :=
  let formattedAccountId := getAccountId accountId in
  let body := buildQueryString env (lookalikeData audienceData) in
  makeRequest env (formattedAccountId +:+ "/customaudiences") POST (JStr body)
    (Some formattedAccountId) true.

Definition creativeFields : string :=
  "id,name,title,body,image_url,video_id,call_to_action,object_story_spec".

Definition getAdCreatives (env : Env) (accountId : string)
    (fs : option (list string)) (rest : list (string * JsVal))
  : M PaginatedResult :=
  let formattedAccountId := getAccountId accountId in
  let query := plainQuery env fs rest creativeFields in
  response <- makeRequest env
                (formattedAccountId +:+ "/adcreatives?" +:+ query)
                GET JNull (Some formattedAccountId) false ;;
  ret (parsePaginatedResponse (baseUrl env) response).

Definition createAdCreative (env : Env) (accountId : string)
    (creativeData : list (string * JsVal)) : M JsVal :=
  let formattedAccountId := getAccountId accountId in
  let body := buildQueryString env creativeData in
  makeRequest env (formattedAccountId +:+ "/adcreatives") POST (JStr body)
    (Some formattedAccountId) true.

Definition adsListFields : string :=
  "id,name,status,effective_status,created_time,adset_id,creative".

(** The [queryParams] object of [getAdsByCampaign] and [getAdsByAccount]. *)
Definition adsQueryParams (env : Env) (params : list (string * JsVal))
  : list (string * JsVal) :=
  let p := JObj params in
  let queryParams :=
    [("fields", JStr adsListFields);
     ("limit", if truthy (prop "limit" p) then prop "limit" p else JNum 25);
     ("after", prop "after" p);
     ("before", prop "before" p)] in
  if truthy (prop "status" p)
  then objSet "status" (JStr (jsonStringify env (prop "status" p))) queryParams
  else queryParams.

Definition getAdsByCampaign (env : Env) (campaignId : string)
    (params : list (string * JsVal)) : M PaginatedResult :=
  let query := buildQueryString env (adsQueryParams env params) in
  result <- makeRequest env (campaignId +:+ "/ads?" +:+ query)
              GET JUndefined None false ;;
  ret (parsePaginatedResponse (baseUrl env) result).

Definition getAdsByAccount (env : Env) (accountId : string)
    (params : list (string * JsVal)) : M PaginatedResult :=
  let formattedAccountId := getAccountId accountId in
  let query := buildQueryString env (adsQueryParams env params) in
  result <- makeRequest env (formattedAccountId +:+ "/ads?" +:+ query)
              GET JUndefined (Some formattedAccountId) false ;;
  ret (parsePaginatedResponse (baseUrl env) result).

Definition getAdAccount (env : Env) (accountId : string) : M JsVal :=
  let formattedAccountId := getAccountId accountId in
  let query :=
    buildQueryString env
      [("fields",
        JStr "id,name,account_status,currency,timezone_name,funding_source_details,business")] in
  makeRequest env (formattedAccountId +:+ "?" +:+ query)
    GET JUndefined (Some formattedAccountId) false.

Definition getCustomAudience (env : Env) (audienceId : string) : M JsVal :=
  let query :=
    buildQueryString env
      [("fields",
        JStr "id,name,description,approximate_count,delivery_status,operation_status")] in
  makeRequest env (audienceId +:+ "?" +:+ query) GET JUndefined None false.

Definition estimateAudienceSize (env : Env) (accountId : string)
    (targeting : JsVal) (optimizationGoal : string) : M JsVal :=
  let formattedAccountId := getAccountId accountId in
  let query :=
    buildQueryString env
      [("targeting_spec", targeting);
       ("optimization_goal", JStr optimizationGoal)] in
  makeRequest env (formattedAccountId +:+ "/delivery_estimate?" +:+ query)
    GET JNull (Some formattedAccountId) false.

Definition generateAdPreview (env : Env) (creativeId adFormat : string)
    (productItemIds : option (list string)) : M JsVal :=
  let queryParams :=
    match productItemIds with
    | Some (i :: ids) =>
        [("ad_format", JStr adFormat);
         ("product_item_ids", JArr (map JStr (i :: ids)))]
    | _ => [("ad_format", JStr adFormat)]
    end in
  let query := buildQueryString env queryParams in
  makeRequest env (creativeId +:+ "/previews?" +:+ query)
    GET JUndefined None false.

Definition isDigit (c : ascii) : bool :=
  (48 <=? nat_of_ascii c)%nat && (nat_of_ascii c <=? 57)%nat.

Fixpoint allDigits (s : string) : bool :=
  match s with
  | EmptyString => true
  | String c s' => isDigit c && allDigits s'
  end.

(** [objectId.match(/^(\d+)$/)]: one or more decimal digits and nothing
    else. *)
Definition matchesDigits (s : string) : bool :=
  negb (String.eqb s "") && allDigits s.

Definition extractAccountIdFromObjectId (objectId : string) : option string :=
  if matchesDigits objectId then None
  else if String.prefix "act_" objectId then Some objectId
  else None.

(** ** Export of insights ([src/tools/analytics.ts]) *)

(** [headers.add(key)] on a [Set]: insertion order, no repetition. *)
Definition addKey (headers : list string) (k : string) : list string :=
  if existsb (String.eqb k) headers then headers else headers ++ [k].

Definition csvHeaders (data : list (list (string * JsVal))) : list string :=
  fold_left (fun headers row => fold_left addKey (map fst row) headers) data [].

(** [String(value).replace] with the global quote pattern: every double
    quote is doubled. *)
Fixpoint escapeQuotes (s : string) : string :=
  match s with
  | EmptyString => EmptyString
  | String c s' =>
      if Ascii.eqb c (ascii_of_nat 34)
      then String c (String c (escapeQuotes s'))
      else String c (escapeQuotes s')
  end.

Definition csvCell (env : Env) (row : list (string * JsVal)) (header : string)
  : string :=
  match default JUndefined (assoc header row) with
  | JUndefined | JNull => ""
  | (JArr _ | JObj _) as value => jsonStringify env value
  | value => escapeQuotes (jsString env value)
  end.

Definition csvCells (env : Env) (data : list (list (string * JsVal)))
  : list (list string) :=
  map (fun row => map (csvCell env row) (csvHeaders data)) data.

Definition quoted (v : string) : string :=
  String (ascii_of_nat 34) v +:+ String (ascii_of_nat 34) EmptyString.

Definition csvRows (env : Env) (data : list (list (string * JsVal)))
  : list string :=
  String.concat "," (csvHeaders data)
    :: map (fun values => String.concat "," (map quoted values))
           (csvCells env data).

Definition newline : string := String (ascii_of_nat 10) EmptyString.

Definition convertToCSV (env : Env) (data : list (list (string * JsVal)))
  : string :=
  match data with
  | [] => ""
  | _ => String.concat newline (csvRows env data)
  end.

(** ** Bearer credentials ([UserAuthManager.extractBearerToken]) *)

Definition extractBearerToken (authHeader : option string) : option string :=
  match authHeader with
  | Some h =>
      if given authHeader && String.prefix "Bearer " h
      then Some (String.substring 7 (String.length h - 7)%nat h)
      else None
  | None => None
  end.

(** ** Vocabulary for objects and query strings *)

(** The keys of a JavaScript object are pairwise different. *)
Fixpoint distinct (keys : list string) : bool :=
  match keys with
  | [] => true
  | k :: rest => negb (existsb (String.eqb k) rest) && distinct rest
  end.

Definition hasKey {A} (k : string) (l : list (string * A)) : bool :=
  existsb (fun kv => String.eqb k (fst kv)) l.

(** What [buildQueryString] hands to [URLSearchParams] for one entry. *)
Definition queryPair (env : Env) (kv : string * JsVal) : string * string :=
  (fst kv, paramText env (snd kv)).

Definition present (kv : string * JsVal) : bool := negb (nullish (snd kv)).

Definition campaignEndpoint (campaignId : string) : string :=
  campaignId +:+ "?fields=id,name,objective,status,effective_status,created_time,updated_time,start_time,stop_time,budget_remaining,daily_budget,lifetime_budget,account_id".

Definition notFields (kv : string * JsVal) : bool :=
  negb (String.eqb "fields" (fst kv)).


(** Every outbound request among [evs] is the request [r]. *)
Definition onlySends (r : Request) (evs : list Event) : Prop :=
  Forall (fun e => isFetch e = true -> e = EvFetch r) evs.

(** A computation is [metered] for account [a] when the first thing it
    records is one quota check for [a], with the given weight flag, and no
    other quota check follows. *)
Definition metered {A} (a : string) (isWrite : bool) (c : M A) : Prop :=
  forall w,
    exists tail,
      trace (snd (c w)) = trace w ++ EvQuota a isWrite :: tail /\
      existsb isQuota tail = false.

(** ** A concrete deployment, for examples *)

Definition dq : string := String (ascii_of_nat 34) EmptyString.

Fixpoint showJson (fuel : nat) (v : JsVal) : string :=
  match fuel with
  | O => ""
  | S fuel' =>
      match v with
      | JUndefined => "undefined"
      | JNull => "null"
      | JBool b => if b then "true" else "false"
      | JNum n => pretty n
      | JStr s => dq +:+ s +:+ dq
      | JArr xs => "[" +:+ String.concat "," (map (showJson fuel') xs) +:+ "]"
      | JObj fs =>
          "{" +:+ String.concat ","
                    (map (fun kv => dq +:+ fst kv +:+ dq +:+ ":" +:+ showJson fuel' (snd kv)) fs)
              +:+ "}"
      end
  end.

Definition showVal (v : JsVal) : string :=
  match v with
  | JStr s => s
  | _ => showJson 1 v
  end.

Definition joinParams (l : list (string * string)) : string :=
  String.concat "&" (map (fun kv => fst kv +:+ "=" +:+ snd kv) l).

(** Pathname and query of an absolute URL without fragment. *)
Definition splitUrl (s : string) : option (string * string) :=
  match String.index 0 "://" s with
  | None => None
  | Some i =>
      let rest := String.substring (i + 3) (String.length s - (i + 3))%nat s in
      let (hostpath, query) :=
        match String.index 0 "?" rest with
        | Some q =>
            (String.substring 0 q rest,
             String.substring q (String.length rest - q)%nat rest)
        | None => (rest, "")
        end in
      match String.index 0 "/" hostpath with
      | Some j =>
          Some (String.substring j (String.length hostpath - j)%nat hostpath, query)
      | None => Some ("/", query)
      end
  end.

(** The low-throughput tier: 60 points per five minutes. *)
Definition devQuota : QuotaConfig := mkQuotaConfig 60 300000 300000 0.

Definition demoBackoff : BackoffConfig :=
  mkBackoffConfig 3 1000 30000 (fun _ => 0) [4; 17; 32; 613] [190] [100].

Definition demoEnv : Env :=
  mkEnv "https://graph.facebook.com" "v23.0"
        [("Authorization", "Bearer TOKEN")]
        showVal (showJson 8) joinParams splitUrl devQuota demoBackoff.

Definition world0 (replies : list NetReply) : World :=
  mkWorld 0 ∅ replies [].

(** ** Vocabulary of the statements *)

(** A computation is [quiet] when it leaves the rate limiter alone: the
    windows are untouched and no quota event is recorded. *)
Definition quiet {A} (c : M A) : Prop :=
  forall w,
    limits (snd (c w)) = limits w /\
    exists evs, trace (snd (c w)) = trace w ++ evs /\
                existsb isQuota evs = false.

(** A computation is [unmetered] when it goes to the network without any
    dealing with the rate limiter: its first recorded event is the outbound
    request, no quota event follows, and the windows are untouched. *)
Definition unmetered {A} (c : M A) : Prop :=
  forall w,
    limits (snd (c w)) = limits w /\
    exists r tail,
      trace (snd (c w)) = trace w ++ EvFetch r :: tail /\
      existsb isQuota tail = false.

(** [result.data || []] on a decoded body that is not [null]. *)
Definition dataOrEmpty (result : JsVal) : JsVal :=
  if truthy (prop "data" result) then prop "data" result else JArr [].

Definition afterOneCall (w : World) (r : Request) (rest : list NetReply)
  : World :=
  mkWorld (clock w) (limits w) rest (trace w ++ [EvFetch r]).

(** No window for the key, or one whose decay length has run out. *)
Definition fresh (cfg : QuotaConfig) (now : Z) (key : string)
    (m : gmap string QuotaWindow) : Prop :=
  match m !! key with
  | None => True
  | Some qw => windowStart qw + decayMs cfg <= now
  end.

(** The records [allAccounts.push(...response.data)] takes from a page. *)
Definition pageItems (page : JsVal) : option (list JsVal) :=
  if nullish page then None else spreadItems (prop "data" page).

(** [Walk env pages endpoints]: every page but the last carries a
    [paging.next] URL, [endpoints] lists the endpoint derived from each of
    them (pathname without its leading slash, then the query), and the last
    page carries none. *)
Inductive Walk (env : Env) : list JsVal -> list string -> Prop :=
| walk_last page :
    truthy (pageNext page) = false ->
    Walk env [page] []
| walk_next page pathname search pages endpoints :
    truthy (pageNext page) = true ->
    parseUrl env (urlText env (pageNext page)) = Some (pathname, search) ->
    given (Some (relativePath pathname search)) = true ->
    Walk env pages endpoints ->
    Walk env (page :: pages) (relativePath pathname search :: endpoints).

Definition pageRequest (env : Env) (endpoint : string) : Event :=
  EvFetch (requestFor env (urlOf env endpoint) GET JUndefined).

(** ** Sample replies and parameters *)

Definition flakyReplies : list NetReply :=
  [HttpReply 500 JNull; NetDown; HttpReply 200 (JObj [("id", JStr "120")])].

Definition noParent : ListParams :=
  mkListParams None None None (JStr "ACTIVE") (Some ["id"; "name"])
               [("limit", JNum 25)].

Definition lastPageWithCursor : JsVal :=
  JObj [("data", JArr [JObj [("id", JStr "act_1")]]);
        ("paging", JObj [("cursors", JObj [("before", JStr "B"); ("after", JStr "X")])])].

Definition bareEnvelope : JsVal :=
  JObj [("data", JArr [JObj [("id", JStr "c1")]; JObj [("id", JStr "c2")];
                        JObj [("id", JStr "c3")]])].

Definition tokenExpired : JsVal :=
  JObj [("error", JObj [("message", JStr "Error validating access token");
                        ("type", JStr "OAuthException");
                        ("code", JNum 190)])].

Definition authFailure : Failure := mkFailure (Some 400) (Some 190).

Definition sixtyReads : list (Z * Z) :=
  map (fun i => (1000 * Z.of_nat i, 1)) (seq 1 59).

Definition campaignObject : JsVal :=
  JObj [("id", JStr "120"); ("name", JStr "Spring"); ("account_id", JStr "1")].

Definition noFilter : ListParams :=
  mkListParams None None None JUndefined None [("limit", JNum 25)].

Definition firstPage : JsVal :=
  JObj [("data", JArr [JObj [("id", JStr "act_7")]; JObj [("id", JStr "act_8")]]);
        ("paging",
         JObj [("cursors", JObj [("before", JStr "A"); ("after", JStr "B")]);
               ("next", JStr "https://graph.facebook.com/me/adaccounts?limit=100&after=B")])].

Definition campaignAndAccount : ListParams :=
  mkListParams None (Some "120") (Some "7") JUndefined None [].

Definition campaignOnly : ListParams :=
  mkListParams None (Some "120") None JUndefined None [].

Definition versionedFirstPage : JsVal :=
  JObj [("data", JArr [JObj [("id", JStr "act_7")]]);
        ("paging",
         JObj [("next",
                JStr "https://graph.facebook.com/v23.0/me/adaccounts?limit=100&after=B")])].

(** The endpoint with which the walk of [getAdAccounts] goes on after a
    page that carries [paging.next], when the loop gets one: the URL parses
    and what the loop takes from it is not the empty string. *)
Definition followUp (env : Env) (page : JsVal) : option string :=
  match parseUrl env (urlText env (pageNext page)) with
  | Some (pathname, search) =>
      if given (Some (relativePath pathname search))
      then Some (relativePath pathname search)
      else None
  | None => None
  end.

(** [Fetched env w endpoint pages w']: from world [w] the calls of the
    walk, the first to [endpoint], succeed one after the other, in whatever
    way a call succeeds (at once or after retries, with any 2xx status),
    with the pages [pages]; every page but the last carries [paging.next],
    the last carries none, and [w'] is the world the last call leaves. *)
Inductive Fetched (env : Env) : World -> string -> list JsVal -> World -> Prop :=
| fetched_last w endpoint page w1 :
    makeRequest env endpoint GET JUndefined None false w = (Ok page, w1) ->
    truthy (pageNext page) = false ->
    Fetched env w endpoint [page] w1
| fetched_more w endpoint page w1 next pages w2 :
    makeRequest env endpoint GET JUndefined None false w = (Ok page, w1) ->
    truthy (pageNext page) = true ->
    followUp env page = Some next ->
    Fetched env w1 next pages w2 ->
    Fetched env w endpoint (page :: pages) w2.

(** A walk that needs a retry and meets a 201: a server error, the first
    page, a dropped connection, the last page, and a reply nobody asks
    for. *)
Definition bumpyWalk : list NetReply :=
  [HttpReply 500 JNull; HttpReply 200 firstPage; NetDown;
   HttpReply 201 lastPageWithCursor; HttpReply 200 bareEnvelope].

(** Reference for the column order of the CSV export: the keys of a list
    in order of first appearance, each once. *)
Fixpoint firstOccurrences (keys : list string) : list string :=
  match keys with
  | [] => []
  | k :: rest =>
      k :: List.filter (fun x => negb (String.eqb k x)) (firstOccurrences rest)
  end.

(** The line of one record under the columns [headers]. *)
Definition csvLine (env : Env) (headers : list string)
    (row : list (string * JsVal)) : string :=
  String.concat "," (map quoted (map (csvCell env row) headers)).

(** ** Reasoning about the monad *)

Create HintDb quiet.

(** The events recorded so far are all there is. *)
Ltac same_events evs := split; [assumption|]; exists evs; auto.

Lemma quiet_ret {A} (a : A) : quiet (ret a).
Proof.
  intros w. split; [reflexivity|]. exists []. simpl.
  rewrite app_nil_r. auto.
Qed.

Lemma quiet_throw {A} (e : Error) : quiet (@throw A e).
Proof.
  intros w. split; [reflexivity|]. exists []. simpl.
  rewrite app_nil_r. auto.
Qed.

Lemma quiet_bind {A B} (c : M A) (k : A -> M B) :
  quiet c -> (forall a, quiet (k a)) -> quiet (bind c k).
Proof.
  intros Hc Hk w. unfold bind.
  destruct (Hc w) as [Hl [evs [Ht Hq]]].
  destruct (c w) as [[a|e] w1]; simpl in *.
  - destruct (Hk a w1) as [Hl' [evs' [Ht' Hq']]]. split; [congruence|].
    exists (evs ++ evs'). rewrite Ht', Ht, <- app_assoc. split; [reflexivity|].
    rewrite existsb_app, Hq, Hq'. reflexivity.
  - split; [assumption|]. exists evs. auto.
Qed.

Lemma quiet_catch {A} (c : M A) (h : Error -> M A) :
  quiet c -> (forall e, quiet (h e)) -> quiet (catch c h).
Proof.
  intros Hc Hh w. unfold catch.
  destruct (Hc w) as [Hl [evs [Ht Hq]]].
  destruct (c w) as [[a|e] w1]; simpl in *.
  - split; [assumption|]. exists evs. auto.
  - destruct (Hh e w1) as [Hl' [evs' [Ht' Hq']]]. split; [congruence|].
    exists (evs ++ evs'). rewrite Ht', Ht, <- app_assoc. split; [reflexivity|].
    rewrite existsb_app, Hq, Hq'. reflexivity.
Qed.

Lemma quiet_sleep ms : quiet (sleep ms).
Proof. intros w. split; [reflexivity|]. exists [EvSleep ms]. auto. Qed.

Lemma quiet_fetch r : quiet (fetch r).
Proof.
  intros w. unfold fetch, bind, emit. simpl.
  destruct (wire w) as [|[|s b] rest]; simpl;
    (split; [reflexivity|]; exists [EvFetch r]; auto).
Qed.

Lemma quiet_handleResponse resp : quiet (handleResponse resp).
Proof.
  destruct resp as [s b]. unfold handleResponse.
  destruct ((200 <=? s) && (s <? 300)); [apply quiet_ret | apply quiet_throw].
Qed.

#[local] Hint Resolve quiet_ret quiet_throw quiet_sleep quiet_fetch
  quiet_handleResponse : quiet.

Lemma quiet_transportCall env url method body :
  quiet (transportCall env url method body).
Proof. unfold transportCall. apply quiet_bind; auto with quiet. Qed.

Lemma quiet_attemptsFrom {A} cfg ctx (op : M A) left :
  quiet op -> forall n, quiet (attemptsFrom cfg ctx op left n).
Proof.
  intros Hop. induction left as [|left IH]; intros n w; simpl.
  - destruct (Hop w) as [Hl [evs [Ht Hq]]].
    destruct (op w) as [[a|[sc bu|f|cx cl f at_|msg|]] w1]; simpl in *;
      same_events evs.
  - destruct (Hop w) as [Hl [evs [Ht Hq]]].
    destruct (op w) as [[a|[sc bu|f|cx cl f at_|msg|]] w1]; simpl in *;
      try (same_events evs; fail).
    destruct (retryable (classify cfg f)); simpl; [|same_events evs].
    pose proof (quiet_bind (sleep (backoffDelay cfg n))
                  (fun _ => attemptsFrom cfg ctx op left (S n))
                  (quiet_sleep _) (fun _ => IH (S n)) w1) as [Hl' [evs' [Ht' Hq']]].
    split; [congruence|].
    exists (evs ++ evs'). rewrite Ht', Ht, <- app_assoc. split; [reflexivity|].
    rewrite existsb_app, Hq, Hq'. reflexivity.
Qed.

Lemma quiet_retryWithBackoff {A} cfg (op : M A) ctx :
  quiet op -> quiet (retryWithBackoff cfg op ctx).
Proof. intros H. apply quiet_attemptsFrom. exact H. Qed.

#[local] Hint Resolve quiet_transportCall quiet_retryWithBackoff : quiet.

Lemma quiet_makeRequest_no_account env endpoint method body isWriteCall :
  quiet (makeRequest env endpoint method body None isWriteCall).
Proof. unfold makeRequest. apply quiet_bind; simpl; auto with quiet. Qed.

(** What the gate records: the quota event first, then at most a delay. *)
Lemma checkRateLimit_events cfg a wr w :
  exists g,
    trace (snd (checkRateLimit cfg a wr w)) = trace w ++ EvQuota a wr :: g /\
    existsb isQuota g = false /\ existsb isFetch g = false.
Proof.
  unfold checkRateLimit, bind, emit. simpl.
  destruct (checkAndReserve cfg (clock w) a (callCost wr) (limits w)) as [v m].
  destruct v as [|b]; simpl.
  - exists []. auto.
  - destruct (b - clock w <=? maxWaitMs cfg); simpl.
    + exists [EvSleep (b - clock w)]. rewrite <- app_assoc. auto.
    + exists []. auto.
Qed.

Lemma quotaGate_events env acc wr w :
  exists gate,
    trace (snd (quotaGate env acc wr w)) = trace w ++ gate /\
    existsb isFetch gate = false /\
    if given acc
    then exists a g, acc = Some a /\ gate = EvQuota a wr :: g /\
                     existsb isQuota g = false
    else gate = [] /\ quotaGate env acc wr w = (Ok tt, w).
Proof.
  unfold quotaGate. destruct acc as [a|]; simpl.
  - destruct (negb (String.eqb a "")) eqn:Ha.
    + destruct (checkRateLimit_events (quotaConfig env) a wr w) as [g [Ht [Hq Hf]]].
      exists (EvQuota a wr :: g). repeat split; auto.
      exists a, g. auto.
    + exists []. rewrite app_nil_r. auto.
  - exists []. rewrite app_nil_r. auto.
Qed.

Lemma makeRequest_unfold env endpoint method body acc wr w :
  makeRequest env endpoint method body acc wr w =
  match quotaGate env acc wr w with
  | (Ok _, w1) =>
      retryWithBackoff (backoffConfig env)
        (transportCall env (urlOf env endpoint) method body)
        (methodName method +:+ " " +:+ endpoint) w1
  | (Err e, w1) => (Err e, w1)
  end.
Proof. reflexivity. Qed.

(** ** The quota gate of [makeRequest] *)

(** C1.  In every invocation of [makeRequest] the rate limiter is consulted
    exactly when an account id is supplied (the test is [if (accountId)]);
    whatever the limiter records comes before every outbound HTTP request,
    a check that fails leaves no request at all, and a call without account
    id records nothing and leaves the quota windows as they were. *)
Theorem makeRequest_quota_iff_account
    env endpoint method body acc wr w :
  exists gate rest,
    trace (snd (quotaGate env acc wr w)) = trace w ++ gate /\
    trace (snd (makeRequest env endpoint method body acc wr w))
      = trace w ++ gate ++ rest /\
    existsb isQuota (gate ++ rest) = given acc /\
    existsb isFetch gate = false /\
    existsb isQuota rest = false /\
    match fst (quotaGate env acc wr w) with
    | Ok _ => True
    | Err e =>
        fst (makeRequest env endpoint method body acc wr w) = Err e /\ rest = []
    end /\
    if given acc
    then exists a g, acc = Some a /\ gate = EvQuota a wr :: g
    else gate = [] /\
         limits (snd (makeRequest env endpoint method body acc wr w)) = limits w.
Proof.
  destruct (quotaGate_events env acc wr w) as [gate [Hg [Hf Hcase]]].
  rewrite makeRequest_unfold.
  destruct (quotaGate env acc wr w) as [[u|e] w1] eqn:Hgate; simpl in *.
  - pose proof (quiet_retryWithBackoff (backoffConfig env)
        (transportCall env (urlOf env endpoint) method body)
        (methodName method +:+ " " +:+ endpoint)
        (quiet_transportCall _ _ _ _) w1) as [Hl [rest [Hr Hq]]].
    exists gate, rest. rewrite Hr, Hg, <- app_assoc.
    repeat split; auto.
    + rewrite existsb_app, Hq, orb_false_r.
      destruct (given acc).
      * destruct Hcase as [a [g [_ [-> _]]]]. reflexivity.
      * destruct Hcase as [-> _]. reflexivity.
    + destruct (given acc).
      * destruct Hcase as [a [g [? [? _]]]]. eauto.
      * destruct Hcase as [? Hw]. split; [assumption|].
        inversion Hw; subst. exact Hl.
  - exists gate, []. rewrite app_nil_r.
    repeat split; auto.
    + destruct (given acc).
      * destruct Hcase as [a [g [_ [-> _]]]]. reflexivity.
      * destruct Hcase as [_ Hw]. discriminate Hw.
    + destruct (given acc).
      * destruct Hcase as [a [g [? [? _]]]]. eauto.
      * destruct Hcase as [_ Hw]. discriminate Hw.
Qed.

Lemma filter_none {A} (f : A -> bool) (l : list A) :
  existsb f l = false -> List.filter f l = [].
Proof.
  induction l as [|x l IH]; simpl; [reflexivity|].
  destruct (f x); simpl; [discriminate|]. exact IH.
Qed.

(** The test is JavaScript truthiness: an empty account id is no account
    id. *)
Example makeRequest_empty_account_unchecked :
  existsb isQuota
    (trace (snd (makeRequest demoEnv "120" GET JUndefined (Some "") false
                   (world0 flakyReplies)))) = false.
Proof. vm_compute. reflexivity. Qed.

(** C2.  A call through [makeRequest] that carries an account id passes the
    quota gate exactly once, as the first thing it does and before the
    backoff loop runs the operation; however many attempts the loop makes,
    it records no further quota check and leaves the quota windows as the
    gate left them. *)
Theorem makeRequest_quota_once env endpoint method body acc wr w :
  given acc = true ->
  exists a pre loop,
    acc = Some a /\
    trace (snd (quotaGate env acc wr w)) = trace w ++ EvQuota a wr :: pre /\
    trace (snd (makeRequest env endpoint method body acc wr w))
      = trace w ++ EvQuota a wr :: pre ++ loop /\
    existsb isFetch pre = false /\
    existsb isQuota loop = false /\
    length (List.filter isQuota (EvQuota a wr :: pre ++ loop)) = 1%nat /\
    limits (snd (makeRequest env endpoint method body acc wr w))
      = limits (snd (quotaGate env acc wr w)).
Proof.
  intros Hacc.
  destruct (quotaGate_events env acc wr w) as [gate [Hg [Hf Hcase]]].
  rewrite Hacc in Hcase. destruct Hcase as [a [pre [-> [-> Hpre]]]].
  simpl in Hf.
  rewrite makeRequest_unfold.
  destruct (quotaGate env (Some a) wr w) as [[u|e] w1] eqn:Hgate; simpl in *.
  - pose proof (quiet_retryWithBackoff (backoffConfig env)
        (transportCall env (urlOf env endpoint) method body)
        (methodName method +:+ " " +:+ endpoint)
        (quiet_transportCall _ _ _ _) w1) as [Hl [loop [Hr Hq]]].
    exists a, pre, loop. rewrite Hr, Hg, <- app_assoc. simpl.
    repeat split; auto.
    rewrite filter_none; [reflexivity|].
    rewrite existsb_app, Hpre, Hq. reflexivity.
  - exists a, pre, []. rewrite app_nil_r.
    repeat split; auto.
    simpl. rewrite filter_none; [reflexivity | exact Hpre].
Qed.

Lemma makeRequest_quota_once_witness :
  given (Some "act_1") = true /\
  length (List.filter isFetch
            (trace (snd (makeRequest demoEnv "act_1/campaigns" POST
                           (JStr "name=x") (Some "act_1") true
                           (world0 flakyReplies))))) = 3%nat /\
  exists a pre loop,
    Some "act_1" = Some a /\
    trace (snd (quotaGate demoEnv (Some "act_1") true (world0 flakyReplies)))
      = trace (world0 flakyReplies) ++ EvQuota a true :: pre /\
    trace (snd (makeRequest demoEnv "act_1/campaigns" POST (JStr "name=x")
                  (Some "act_1") true (world0 flakyReplies)))
      = trace (world0 flakyReplies) ++ EvQuota a true :: pre ++ loop /\
    existsb isFetch pre = false /\
    existsb isQuota loop = false /\
    length (List.filter isQuota (EvQuota a true :: pre ++ loop)) = 1%nat /\
    limits (snd (makeRequest demoEnv "act_1/campaigns" POST (JStr "name=x")
                   (Some "act_1") true (world0 flakyReplies)))
      = limits (snd (quotaGate demoEnv (Some "act_1") true (world0 flakyReplies))).
Proof.
  split; [reflexivity|]. split; [vm_compute; reflexivity|].
  apply (makeRequest_quota_once demoEnv "act_1/campaigns" POST (JStr "name=x")
           (Some "act_1") true (world0 flakyReplies)).
  reflexivity.
Defined.

(** ** Operations that carry no account id *)

Lemma fetch_world r w :
  limits (snd (fetch r w)) = limits w /\
  trace (snd (fetch r w)) = trace w ++ [EvFetch r].
Proof.
  unfold fetch, bind, emit. simpl.
  destruct (wire w) as [|[|s b] rest]; simpl; auto.
Qed.

Lemma handleResponse_world resp w : snd (handleResponse resp w) = w.
Proof.
  destruct resp as [s b]. unfold handleResponse.
  destruct ((200 <=? s) && (s <? 300)); reflexivity.
Qed.

Lemma transportCall_world env url method body w :
  limits (snd (transportCall env url method body w)) = limits w /\
  trace (snd (transportCall env url method body w))
    = trace w ++ [EvFetch (requestFor env url method body)].
Proof.
  unfold transportCall, bind.
  pose proof (fetch_world (requestFor env url method body) w) as [Hl Ht].
  destruct (fetch (requestFor env url method body) w) as [[resp|e] w1];
    simpl in *; [|auto].
  rewrite handleResponse_world. auto.
Qed.

Lemma unmetered_retry env url method body ctx :
  unmetered (retryWithBackoff (backoffConfig env)
               (transportCall env url method body) ctx).
Proof.
  intros w. unfold retryWithBackoff.
  pose proof (transportCall_world env url method body w) as [Hl Ht].
  set (r := requestFor env url method body) in *.
  assert (Hstop : limits (snd (transportCall env url method body w)) = limits w /\
                  exists r0 tail,
                    trace (snd (transportCall env url method body w))
                      = trace w ++ EvFetch r0 :: tail /\
                    existsb isQuota tail = false)
    by (split; [exact Hl | exists r, []; auto]).
  destruct (Nat.pred (maxAttempts (backoffConfig env))) as [|left]; simpl;
    destruct (transportCall env url method body w)
      as [[a|[sc bu|f|cx cl f at_|msg|]] w1]; simpl in *; try exact Hstop.
  destruct (retryable (classify (backoffConfig env) f)); [|exact Hstop].
  pose proof (quiet_bind (sleep (backoffDelay (backoffConfig env) 0))
                (fun _ => attemptsFrom (backoffConfig env) ctx
                            (transportCall env url method body) left 1%nat)
                (quiet_sleep _)
                (fun _ => quiet_attemptsFrom _ _ _ _ (quiet_transportCall _ _ _ _) _)
                w1) as [Hl' [evs [Ht' Hq]]].
  split; [congruence|].
  exists r, evs. rewrite Ht', Ht, <- app_assoc. auto.
Qed.

Lemma unmetered_makeRequest env endpoint method body isWriteCall :
  unmetered (makeRequest env endpoint method body None isWriteCall).
Proof.
  intros w. rewrite makeRequest_unfold. simpl.
  apply unmetered_retry.
Qed.

Lemma catch_rethrow {A} (c : M A) w :
  catch c (fun error => throw error) w = c w.
Proof.
  unfold catch, throw. destruct (c w) as [[a|e] w1]; reflexivity.
Qed.

(** C8.  [updateCampaign], [deleteCampaign], [createAd] and [batchRequest]
    hand [makeRequest] an undefined account id, whatever their arguments;
    so each of them goes straight to the network: the first event it
    records is its outbound request, it records no quota check at all, and
    it leaves the quota windows untouched. *)
Theorem writes_without_account_skip_quota env :
  (forall campaignId updates w,
      updateCampaign env campaignId updates w
        = makeRequest env campaignId POST
            (JStr (buildQueryString env updates)) None true w) /\
  (forall campaignId w,
      deleteCampaign env campaignId w
        = makeRequest env campaignId DELETE JNull None true w) /\
  (forall adSetId adData w,
      createAd env adSetId adData w
        = makeRequest env (adSetId +:+ "/ads") POST
            (JStr (buildQueryString env adData)) None true w) /\
  (forall requests w,
      batchRequest env requests w
        = makeRequest env "" POST
            (JStr (buildQueryString env
                     [("batch", JStr (jsonStringify env requests))]))
            None true w) /\
  (forall campaignId updates, unmetered (updateCampaign env campaignId updates)) /\
  (forall campaignId, unmetered (deleteCampaign env campaignId)) /\
  (forall adSetId adData, unmetered (createAd env adSetId adData)) /\
  (forall requests, unmetered (batchRequest env requests)).
Proof.
  assert (Hc : forall adSetId adData w,
             createAd env adSetId adData w
             = makeRequest env (adSetId +:+ "/ads") POST
                 (JStr (buildQueryString env adData)) None true w)
    by (intros; unfold createAd; apply catch_rethrow).
  repeat split; try reflexivity; try exact Hc;
    try (rewrite Hc); try apply unmetered_makeRequest.
Qed.

(** ** Operations that fail before any call *)

(** C10.  [getAdSets] without a campaign id and without an account id, and
    [getAds] without an ad set id, campaign id or account id, fail with
    their usage error and leave the world exactly as it was: no quota
    check, no change to a quota window, no request. *)
Theorem list_without_parent_fails_early env p w :
  given (campaignId p) = false ->
  given (accountId p) = false ->
  getAdSets env p w = (Err missingAdSetParent, w) /\
  (given (adsetId p) = false -> getAds env p w = (Err missingParent, w)).
Proof.
  intros Hc Hacc. unfold getAdSets, getAds, bind.
  rewrite Hc, Hacc. split; [reflexivity|].
  intros ->. reflexivity.
Qed.

Lemma list_without_parent_fails_early_witness :
  given (campaignId noParent) = false /\
  given (accountId noParent) = false /\
  getAdSets demoEnv noParent (world0 flakyReplies)
    = (Err missingAdSetParent, world0 flakyReplies) /\
  (given (adsetId noParent) = false ->
   getAds demoEnv noParent (world0 flakyReplies)
     = (Err missingParent, world0 flakyReplies)).
Proof.
  repeat (split; [reflexivity|]).
  apply (list_without_parent_fails_early demoEnv noParent (world0 flakyReplies));
    reflexivity.
Defined.

(** ** Operations that swallow failures *)

(** C9.  [getFundingSources] and [getAccountBusiness] never hand an error
    to their caller.  The first returns the [data] member of the decoded
    response (the empty array when that member is missing or falsy) and the
    empty array whenever the request fails; the second returns the decoded
    response and the empty object whenever the request fails. *)
Theorem funding_and_business_never_throw env accountId w :
  let fa := getAccountId accountId in
  fst (getFundingSources env accountId w) =
    Ok (match fst (makeRequest env (fa +:+ "/funding_source_details")
                     GET JUndefined (Some fa) false w) with
        | Ok result => if nullish result then JArr [] else dataOrEmpty result
        | Err _ => JArr []
        end) /\
  fst (getAccountBusiness env accountId w) =
    Ok (match fst (makeRequest env (fa +:+ "/business")
                     GET JUndefined (Some fa) false w) with
        | Ok result => result
        | Err _ => JObj []
        end).
Proof.
  simpl. unfold getFundingSources, getAccountBusiness, catch, bind, getProp.
  split.
  - destruct (makeRequest env _ GET JUndefined _ false w) as [[result|e] w1];
      simpl; [|reflexivity].
    destruct (nullish result); reflexivity.
  - destruct (makeRequest env _ GET JUndefined _ false w) as [[result|e] w1];
      reflexivity.
Qed.

(** ** Pagination Normalizer *)

(** C5.  An envelope whose [paging.cursors.after] is the token [x] and
    which has no [paging.next] is normalized to a page with
    [hasNextPage = true] and forward cursor [x]; an envelope with no
    [paging] block is normalized to a page with both flags false, whatever
    records it carries. *)
Theorem normalizer_flags_from_presence base withCursor bare x :
  optProp "after" (optProp "cursors" (optProp "paging" withCursor)) = JStr x ->
  optProp "next" (optProp "paging" withCursor) = JUndefined ->
  optProp "paging" bare = JUndefined ->
  (hasNextPage (parsePaginatedResponse base withCursor) = true /\
   nextCursor (parsePaginatedResponse base withCursor) = Some x) /\
  (hasNextPage (parsePaginatedResponse base bare) = false /\
   hasPreviousPage (parsePaginatedResponse base bare) = false /\
   records (parsePaginatedResponse base bare) = envelopeData bare).
Proof.
  intros Hafter Hnext Hbare. unfold parsePaginatedResponse. simpl.
  rewrite Hafter, Hnext, Hbare. simpl. auto.
Qed.

Lemma normalizer_flags_from_presence_witness :
  (hasNextPage (parsePaginatedResponse "https://graph.facebook.com" lastPageWithCursor) = true /\
   nextCursor (parsePaginatedResponse "https://graph.facebook.com" lastPageWithCursor) = Some "X") /\
  (hasNextPage (parsePaginatedResponse "https://graph.facebook.com" bareEnvelope) = false /\
   hasPreviousPage (parsePaginatedResponse "https://graph.facebook.com" bareEnvelope) = false /\
   records (parsePaginatedResponse "https://graph.facebook.com" bareEnvelope)
     = envelopeData bareEnvelope).
Proof.
  apply (normalizer_flags_from_presence "https://graph.facebook.com"
           lastPageWithCursor bareEnvelope "X"); reflexivity.
Defined.

(** ** Backoff Executor *)

Lemma attemptsFrom_terminal {A} cfg ctx (op : M A) left n w f w1 :
  op w = (Err (Raw f), w1) ->
  retryable (classify cfg f) = false ->
  attemptsFrom cfg ctx op left n w
    = (Err (CallFailed ctx (classify cfg f) f (S n)), w1).
Proof.
  intros Hop Hcls. destruct left; simpl; rewrite Hop; [reflexivity|].
  rewrite Hcls. reflexivity.
Qed.

(** C7.  When the operation fails and the failure classifies as a provider
    authentication error or a provider validation error, the Backoff
    Executor hands that failure to the caller at once: the world is the one
    the single run of the operation left (no delay, no second run) and the
    attempt count it reports is 1. *)
Theorem auth_and_validation_not_retried
    {A} cfg (op : M A) ctx w f w1 :
  op w = (Err (Raw f), w1) ->
  classify cfg f = AuthInvalid \/ classify cfg f = Validation ->
  retryWithBackoff cfg op ctx w
    = (Err (CallFailed ctx (classify cfg f) f 1), w1).
Proof.
  intros Hop Hcls. unfold retryWithBackoff.
  apply attemptsFrom_terminal; [exact Hop|].
  destruct Hcls as [-> | ->]; reflexivity.
Qed.

Lemma auth_and_validation_not_retried_witness :
  let op := transportCall demoEnv (urlOf demoEnv "act_1/campaigns") GET JNull in
  let w := world0 [HttpReply 400 tokenExpired; HttpReply 200 bareEnvelope] in
  let w1 := afterOneCall w
              (requestFor demoEnv (urlOf demoEnv "act_1/campaigns") GET JNull)
              [HttpReply 200 bareEnvelope] in
  op w = (Err (Raw authFailure), w1) /\
  (classify demoBackoff authFailure = AuthInvalid \/
   classify demoBackoff authFailure = Validation) /\
  retryWithBackoff demoBackoff op "GET act_1/campaigns" w
    = (Err (CallFailed "GET act_1/campaigns"
              (classify demoBackoff authFailure) authFailure 1), w1).
Proof.
  cbv zeta.
  split; [reflexivity|]. split; [left; reflexivity|].
  apply (auth_and_validation_not_retried demoBackoff
           (transportCall demoEnv (urlOf demoEnv "act_1/campaigns") GET JNull)
           "GET act_1/campaigns"
           (world0 [HttpReply 400 tokenExpired; HttpReply 200 bareEnvelope])
           authFailure).
  - reflexivity.
  - left; reflexivity.
Defined.

(** ** Quota Tracker *)

Lemma checkAndReserve_fresh cfg now key cost (m : gmap string QuotaWindow) :
  fresh cfg now key m ->
  checkAndReserve cfg now key cost m
    = settle cfg now key (mkWindow cost now None) m.
Proof.
  unfold fresh, checkAndReserve. destruct (m !! key) as [qw|]; [|reflexivity].
  intros H. unfold expired.
  destruct (Z.leb_spec (windowStart qw + decayMs cfg) now); [reflexivity|lia].
Qed.

Lemma sumCosts_nonneg calls :
  Forall (fun c : Z * Z => 0 <= snd c) calls -> 0 <= sumCosts calls.
Proof.
  induction 1 as [|c calls Hc _ IH]; simpl; lia.
Qed.

(** Inside a running, unblocked window every reservation that keeps the
    score within the maximum proceeds and adds its cost. *)
Lemma reserveAll_running cfg key calls :
  forall (m : gmap string QuotaWindow) qw,
    m !! key = Some qw ->
    blockedUntil qw = None ->
    Forall (fun c : Z * Z => fst c < windowStart qw + decayMs cfg) calls ->
    Forall (fun c : Z * Z => 0 <= snd c) calls ->
    score qw + sumCosts calls <= maxScore cfg ->
    forallb isProceed (fst (reserveAll cfg key calls m)) = true /\
    snd (reserveAll cfg key calls m) !! key
      = Some (mkWindow (score qw + sumCosts calls) (windowStart qw) None).
Proof.
  induction calls as [|[now cost] calls IH]; intros m qw Hm Hb Ht Hc Hsum.
  - simpl. split; [reflexivity|]. rewrite Z.add_0_r, Hm.
    destruct qw; simpl in *; subst; reflexivity.
  - inversion Ht as [|? ? Hnow Ht']; subst.
    inversion Hc as [|? ? Hcost Hc']; subst. simpl in *.
    pose proof (sumCosts_nonneg calls Hc') as Hrest.
    unfold checkAndReserve. rewrite Hm. unfold expired, blockedAt.
    destruct (Z.leb_spec (windowStart qw + decayMs cfg) now); [lia|].
    rewrite Hb. unfold settle. simpl.
    destruct (Z.ltb_spec (maxScore cfg) (score qw + cost)); [lia|].
    specialize (IH (<[key := mkWindow (score qw + cost) (windowStart qw) None]> m)
                   (mkWindow (score qw + cost) (windowStart qw) None)).
    simpl in IH.
    destruct IH as [IH1 IH2]; auto; [apply lookup_insert_eq | lia |].
    destruct (reserveAll cfg key calls
                (<[key := mkWindow (score qw + cost) (windowStart qw) None]> m))
      as [vs m2]; simpl in *.
    split; [exact IH1|]. rewrite IH2. f_equal. f_equal. lia.
Qed.

(** C6.  A sequence of reservations for one scope key that opens a window
    (none existed, or the previous one had expired) and stays inside its
    decay length with costs summing to at most the maximum: no reservation
    is blocked, and the window ends with the sum as its score.  Moreover a
    reservation of any cost made when no window exists or the window has
    expired starts a new window whose score is that cost. *)
Theorem quota_within_budget_never_blocks cfg key (m : gmap string QuotaWindow)
    t0 c0 rest :
  fresh cfg t0 key m ->
  Forall (fun c : Z * Z => fst c < t0 + decayMs cfg) rest ->
  Forall (fun c : Z * Z => 0 <= snd c) ((t0, c0) :: rest) ->
  sumCosts ((t0, c0) :: rest) <= maxScore cfg ->
  (forallb isProceed (fst (reserveAll cfg key ((t0, c0) :: rest) m)) = true /\
   length (fst (reserveAll cfg key ((t0, c0) :: rest) m)) = S (length rest) /\
   snd (reserveAll cfg key ((t0, c0) :: rest) m) !! key
     = Some (mkWindow (sumCosts ((t0, c0) :: rest)) t0 None)) /\
  (forall cost,
      exists b,
        snd (checkAndReserve cfg t0 key cost m) !! key
          = Some (mkWindow cost t0 b)).
Proof.
  intros Hfresh Ht Hc Hsum. split.
  - inversion Hc as [|? ? Hc0 Hc']; subst. simpl in *.
    pose proof (sumCosts_nonneg rest Hc') as Hrest.
    rewrite (checkAndReserve_fresh _ _ _ _ _ Hfresh). unfold settle. simpl.
    destruct (Z.ltb_spec (maxScore cfg) c0); [lia|].
    destruct (reserveAll_running cfg key rest
                (<[key := mkWindow c0 t0 None]> m) (mkWindow c0 t0 None))
      as [H1 H2]; auto; [apply lookup_insert_eq|].
    assert (Hlen : forall calls (m0 : gmap string QuotaWindow),
               length (fst (reserveAll cfg key calls m0)) = length calls).
    { induction calls as [|[t c] calls IH]; intros m0; [reflexivity|].
      simpl. destruct (checkAndReserve cfg t key c m0) as [v m1].
      specialize (IH m1). destruct (reserveAll cfg key calls m1). simpl in *.
      congruence. }
    specialize (Hlen rest (<[key := mkWindow c0 t0 None]> m)).
    destruct (reserveAll cfg key rest (<[key := mkWindow c0 t0 None]> m))
      as [vs m2]; simpl in *.
    repeat split; auto.
  - intros cost. rewrite (checkAndReserve_fresh _ _ _ _ _ Hfresh).
    unfold settle. simpl.
    destruct (maxScore cfg <? cost); simpl; rewrite lookup_insert_eq; eauto.
Qed.

Lemma quota_within_budget_never_blocks_witness :
  (forallb isProceed
     (fst (reserveAll devQuota "act_1" ((0, 1) :: sixtyReads) ∅)) = true /\
   length (fst (reserveAll devQuota "act_1" ((0, 1) :: sixtyReads) ∅))
     = S (length sixtyReads) /\
   snd (reserveAll devQuota "act_1" ((0, 1) :: sixtyReads) ∅) !! "act_1"
     = Some (mkWindow (sumCosts ((0, 1) :: sixtyReads)) 0 None)) /\
  (forall cost,
      exists b,
        snd (checkAndReserve devQuota 0 "act_1" cost ∅) !! "act_1"
          = Some (mkWindow cost 0 b)).
Proof.
  apply (quota_within_budget_never_blocks devQuota "act_1" ∅ 0 1 sixtyReads).
  - exact I.
  - unfold sixtyReads. simpl. repeat (constructor; [simpl; lia|]). constructor.
  - unfold sixtyReads. simpl. repeat (constructor; [simpl; lia|]). constructor.
  - vm_compute. discriminate.
Defined.

(** ** What the request path returns *)

Lemma quotaGate_wire env acc wr w :
  wire (snd (quotaGate env acc wr w)) = wire w.
Proof.
  unfold quotaGate. destruct acc as [a|]; [|reflexivity].
  destruct (given (Some a)); [|reflexivity].
  unfold checkRateLimit, bind, emit. simpl.
  destruct (checkAndReserve _ _ _ _ _) as [v m].
  destruct v as [|b]; simpl; [reflexivity|].
  destruct (b - clock w <=? maxWaitMs (quotaConfig env)); reflexivity.
Qed.

(** One transport call takes at most one reply off the wire, and what it
    returns is the body of a 2xx reply, as decoded. *)
Lemma transportCall_cases env url method body w :
  match transportCall env url method body w with
  | (Ok v, w1) => exists s, wire w = HttpReply s v :: wire w1 /\ 200 <= s < 300
  | (Err _, w1) => exists before, wire w = before ++ wire w1
  end.
Proof.
  unfold transportCall, fetch, bind, emit. simpl.
  destruct (wire w) as [|[|s b] rest] eqn:Hw; simpl.
  - exists []. reflexivity.
  - exists [NetDown]. reflexivity.
  - unfold handleResponse.
    destruct (Z.leb_spec 200 s); destruct (Z.ltb_spec s 300); simpl;
      try (exists [HttpReply s b]; reflexivity).
    exists s. split; [reflexivity | lia].
Qed.

Lemma attemptsFrom_returns_reply cfg ctx env url method body left :
  forall n w v w',
    attemptsFrom cfg ctx (transportCall env url method body) left n w = (Ok v, w') ->
    exists s before,
      wire w = before ++ HttpReply s v :: wire w' /\ 200 <= s < 300.
Proof.
  induction left as [|left IH]; intros n w v w' H; simpl in H;
    pose proof (transportCall_cases env url method body w) as Hc;
    destruct (transportCall env url method body w)
      as [[a|[sc bu|f|cx cl f at_|msg|]] w1]; try discriminate.
  - inversion H; subst. destruct Hc as [s [Hw Hs]]. exists s, []. auto.
  - inversion H; subst. destruct Hc as [s [Hw Hs]]. exists s, []. auto.
  - destruct (retryable (classify cfg f)); [|discriminate].
    unfold bind, sleep in H. simpl in H.
    apply IH in H. destruct H as [s [before [Hw Hs]]]. simpl in Hw.
    destruct Hc as [b0 Hb0]. exists s, (b0 ++ before).
    rewrite Hb0, Hw, <- app_assoc. auto.
Qed.

Lemma makeRequest_returns_reply env endpoint method body acc wr w result w' :
  makeRequest env endpoint method body acc wr w = (Ok result, w') ->
  exists s before,
    wire w = before ++ HttpReply s result :: wire w' /\ 200 <= s < 300.
Proof.
  rewrite makeRequest_unfold.
  pose proof (quotaGate_wire env acc wr w) as Hg.
  destruct (quotaGate env acc wr w) as [[u|e] w1]; [|discriminate].
  simpl in Hg. intros H. apply attemptsFrom_returns_reply in H.
  rewrite <- Hg. exact H.
Qed.

(** C4, as the code has it.  [makeRequest] returns the decoded body of the
    2xx reply it took last off the wire, unchanged, whether or not that
    body is a list envelope.  The Pagination Normalizer is applied by the
    list operation itself ([getCampaigns]) to whatever [makeRequest]
    returned, and a single-resource operation ([getCampaign]) returns the
    decoded body as it is. *)
Theorem normalizer_applied_by_list_operations env :
  (forall endpoint method body acc wr w result w',
      makeRequest env endpoint method body acc wr w = (Ok result, w') ->
      exists s before,
        wire w = before ++ HttpReply s result :: wire w' /\ 200 <= s < 300) /\
  (forall accountId p w page w',
      getCampaigns env accountId p w = (Ok page, w') ->
      exists s before body,
        wire w = before ++ HttpReply s body :: wire w' /\ 200 <= s < 300 /\
        page = parsePaginatedResponse (baseUrl env) body) /\
  (forall p w page w',
      getAdSets env p w = (Ok page, w') \/ getAds env p w = (Ok page, w') ->
      exists s before body,
        wire w = before ++ HttpReply s body :: wire w' /\ 200 <= s < 300 /\
        page = parsePaginatedResponse (baseUrl env) body) /\
  (forall campaignId w result w',
      getCampaign env campaignId w = (Ok result, w') ->
      exists s before,
        wire w = before ++ HttpReply s result :: wire w' /\ 200 <= s < 300).
Proof.
  assert (Hpage : forall endpoint acc w page w',
             bind (makeRequest env endpoint GET JNull acc false)
                  (fun response => ret (parsePaginatedResponse (baseUrl env) response)) w
             = (Ok page, w') ->
             exists s before body,
               wire w = before ++ HttpReply s body :: wire w' /\ 200 <= s < 300 /\
               page = parsePaginatedResponse (baseUrl env) body).
  { intros endpoint acc w page w' H. unfold bind in H.
    destruct (makeRequest env endpoint GET JNull acc false w)
      as [[body|e] w1] eqn:Hreq; [|discriminate].
    inversion H; subst.
    apply makeRequest_returns_reply in Hreq.
    destruct Hreq as [s [before [Hw Hs]]]. exists s, before, body. auto. }
  split; [|split; [|split]].
  - intros. eapply makeRequest_returns_reply; eauto.
  - intros accountId p w page w' H. eapply Hpage. exact H.
  - intros p w page w' [H | H].
    + unfold getAdSets in H. unfold bind at 1 in H.
      destruct (given (campaignId p)); [eapply Hpage; exact H|].
      destruct (given (accountId p)); [eapply Hpage; exact H|].
      discriminate.
    + unfold getAds in H. unfold bind at 1 in H.
      destruct (given (adsetId p)); [eapply Hpage; exact H|].
      destruct (given (campaignId p)); [eapply Hpage; exact H|].
      destruct (given (accountId p)); [eapply Hpage; exact H|].
      discriminate.
  - intros campaignId w result w' H. unfold getCampaign in H.
    eapply makeRequest_returns_reply; eauto.
Qed.

Lemma normalizer_applied_by_list_operations_witness :
  let w := world0 [HttpReply 500 JNull; HttpReply 200 lastPageWithCursor] in
  let w1 := world0 [HttpReply 200 campaignObject] in
  let page := parsePaginatedResponse (baseUrl demoEnv) lastPageWithCursor in
  getCampaigns demoEnv "1" noFilter w
    = (Ok page, snd (getCampaigns demoEnv "1" noFilter w)) /\
  getCampaign demoEnv "120" w1
    = (Ok campaignObject, snd (getCampaign demoEnv "120" w1)) /\
  (exists s before body,
      wire w = before ++ HttpReply s body
                 :: wire (snd (getCampaigns demoEnv "1" noFilter w)) /\
      200 <= s < 300 /\
      page = parsePaginatedResponse (baseUrl demoEnv) body) /\
  (exists s before,
      wire w1 = before ++ HttpReply s campaignObject
                  :: wire (snd (getCampaign demoEnv "120" w1)) /\
      200 <= s < 300).
Proof.
  cbv zeta.
  destruct (normalizer_applied_by_list_operations demoEnv)
    as [_ [Hlist [_ Hone]]].
  split; [vm_compute; reflexivity|].
  split; [vm_compute; reflexivity|].
  split.
  - apply (Hlist "1" noFilter
             (world0 [HttpReply 500 JNull; HttpReply 200 lastPageWithCursor])).
    vm_compute. reflexivity.
  - apply (Hone "120" (world0 [HttpReply 200 campaignObject])).
    vm_compute. reflexivity.
Defined.

(** C4 as stated fails: the request path hands a list envelope back as it
    was decoded.  [makeRequest] returns the envelope itself, which is not
    the normalized page, and [getFundingSources] returns the envelope's
    record list without any normalization. *)
Lemma list_envelope_returned_raw :
  let w := world0 [HttpReply 200 lastPageWithCursor] in
  isListEnvelope lastPageWithCursor = true /\
  fst (makeRequest demoEnv "act_1/campaigns" GET JNull (Some "act_1") false w)
    = Ok lastPageWithCursor /\
  lastPageWithCursor
    <> pageObject (parsePaginatedResponse (baseUrl demoEnv) lastPageWithCursor) /\
  fst (getFundingSources demoEnv "act_1" w)
    = Ok (JArr [JObj [("id", JStr "act_1")]]) /\
  JArr [JObj [("id", JStr "act_1")]]
    <> pageObject (parsePaginatedResponse (baseUrl demoEnv) lastPageWithCursor).
Proof.
  cbv zeta. repeat split; try (vm_compute; reflexivity); vm_compute; discriminate.
Qed.

(** ** Walking all pages *)

(** A 2xx reply at the head of the wire is what a call without account id
    returns, at its first attempt. *)
Lemma makeRequest_first_reply env endpoint w page rest :
  wire w = HttpReply 200 page :: rest ->
  makeRequest env endpoint GET JUndefined None false w
    = (Ok page,
       mkWorld (clock w) (limits w) rest (trace w ++ [pageRequest env endpoint])).
Proof.
  intros Hw. rewrite makeRequest_unfold. simpl.
  unfold retryWithBackoff.
  assert (Hop : transportCall env (urlOf env endpoint) GET JUndefined w
                = (Ok page,
                   mkWorld (clock w) (limits w) rest
                           (trace w ++ [pageRequest env endpoint]))).
  { unfold transportCall, fetch, bind, emit. simpl. rewrite Hw. reflexivity. }
  destruct (Nat.pred (maxAttempts (backoffConfig env))); simpl; rewrite Hop;
    reflexivity.
Qed.

Lemma getAdAccountsLoop_walk env pages endpoints :
  Walk env pages endpoints ->
  forall itemss fuel endpoint allAccounts w rest,
    Forall2 (fun page items => pageItems page = Some items) pages itemss ->
    given (Some endpoint) = true ->
    (length pages <= fuel)%nat ->
    wire w = map (HttpReply 200) pages ++ rest ->
    getAdAccountsLoop env fuel (Some endpoint) allAccounts w
      = (Ok (allAccounts ++ concat itemss),
         mkWorld (clock w) (limits w) rest
                 (trace w ++ map (pageRequest env) (endpoint :: endpoints))).
Proof.
  induction 1 as [page Hlast | page pathname search pages endpoints
                                 Hnext Hurl Hgiven Hwalk IH];
    intros itemss fuel endpoint allAccounts w rest Hitems Hep Hfuel Hw.
  - inversion Hitems as [|? items ? tl Hpage Htl]; subst.
    inversion Htl; subst.
    destruct fuel as [|fuel]; [simpl in Hfuel; lia|].
    cbn [getAdAccountsLoop]. rewrite Hep. unfold bind.
    rewrite (makeRequest_first_reply env endpoint w page rest Hw).
    unfold pageItems in Hpage. unfold getProp.
    destruct (nullish page); [discriminate|]. simpl.
    rewrite Hpage, Hlast. unfold ret. simpl. rewrite app_nil_r. reflexivity.
  - inversion Hitems as [|? items ? tl Hpage Htl]; subst.
    destruct fuel as [|fuel]; [simpl in Hfuel; lia|].
    cbn [getAdAccountsLoop]. rewrite Hep. unfold bind.
    rewrite (makeRequest_first_reply env endpoint w page
               (map (HttpReply 200) pages ++ rest) Hw).
    unfold pageItems in Hpage. unfold getProp.
    destruct (nullish page); [discriminate|]. simpl.
    rewrite Hpage, Hnext, Hurl.
    rewrite (IH tl fuel (relativePath pathname search) (allAccounts ++ items)
               (mkWorld (clock w) (limits w) (map (HttpReply 200) pages ++ rest)
                        (trace w ++ [pageRequest env endpoint]))
               rest Htl Hgiven); [|simpl in Hfuel; lia | reflexivity].
    simpl. rewrite <- !app_assoc. reflexivity.
Qed.

Lemma followUp_some env page next :
  followUp env page = Some next ->
  exists pathname search,
    parseUrl env (urlText env (pageNext page)) = Some (pathname, search) /\
    next = relativePath pathname search /\
    given (Some next) = true.
Proof.
  unfold followUp.
  destruct (parseUrl env (urlText env (pageNext page))) as [[pathname search]|];
    [|discriminate].
  destruct (given (Some (relativePath pathname search))) eqn:Hg; [|discriminate].
  intros H. inversion H; subst. exists pathname, search. auto.
Qed.

Lemma getAdAccountsLoop_fetched env w endpoint pages w' :
  Fetched env w endpoint pages w' ->
  forall itemss fuel allAccounts,
    Forall2 (fun page items => pageItems page = Some items) pages itemss ->
    given (Some endpoint) = true ->
    (length pages <= fuel)%nat ->
    getAdAccountsLoop env fuel (Some endpoint) allAccounts w
      = (Ok (allAccounts ++ concat itemss), w').
Proof.
  induction 1 as [w endpoint page w1 Hreq Hlast
                 | w endpoint page w1 next pages w2 Hreq Hnext Hfollow Hrest IH];
    intros itemss fuel allAccounts Hitems Hep Hfuel.
  - inversion Hitems as [|? items ? tl Hpage Htl]; subst.
    inversion Htl; subst.
    destruct fuel as [|fuel]; [simpl in Hfuel; lia|].
    cbn [getAdAccountsLoop]. rewrite Hep. unfold bind. rewrite Hreq.
    unfold pageItems in Hpage. unfold getProp.
    destruct (nullish page); [discriminate|]. simpl.
    rewrite Hpage, Hlast. unfold ret. simpl. rewrite app_nil_r. reflexivity.
  - inversion Hitems as [|? items ? tl Hpage Htl]; subst.
    destruct fuel as [|fuel]; [simpl in Hfuel; lia|].
    destruct (followUp_some env page next Hfollow)
      as [pathname [search [Hurl [-> Hgiven]]]].
    cbn [getAdAccountsLoop]. rewrite Hep. unfold bind. rewrite Hreq.
    unfold pageItems in Hpage. unfold getProp.
    destruct (nullish page); [discriminate|]. simpl.
    rewrite Hpage, Hnext, Hurl.
    rewrite (IH tl fuel (allAccounts ++ items) Htl Hgiven);
      [|simpl in Hfuel; lia].
    simpl. rewrite <- app_assoc. reflexivity.
Qed.

(** Every page fetched has cost the wire a reply. *)
Lemma fetched_wire env w endpoint pages w' :
  Fetched env w endpoint pages w' ->
  (length pages + length (wire w') <= length (wire w))%nat.
Proof.
  induction 1 as [w endpoint page w1 Hreq Hlast
                 | w endpoint page w1 next pages w2 Hreq Hnext Hfollow Hrest IH];
    apply makeRequest_returns_reply in Hreq;
    destruct Hreq as [s [before [Hw _]]]; rewrite Hw, length_app; simpl; lia.
Qed.

(** C3, as the code has it.  When the calls of the walk succeed one after
    the other, each with a page whose [data] can be spread, every page but
    the last carrying a [paging.next] from which the loop gets an endpoint
    to go on with and the last carrying none, [getAdAccounts] returns the
    records of all these pages concatenated in order and leaves the world as
    the call for the last page left it: it goes on after every page that
    carries [paging.next] and stops exactly at the first page that carries
    none, whatever cursors that page carries, taking no further reply. *)
Theorem getAdAccounts_concatenates_pages env w pages itemss w' :
  Fetched env w adAccountsFirstPage pages w' ->
  Forall2 (fun page items => pageItems page = Some items) pages itemss ->
  getAdAccounts env w = (Ok (concat itemss), w').
Proof.
  intros Hfetched Hitems. unfold getAdAccounts.
  rewrite (getAdAccountsLoop_fetched env w adAccountsFirstPage pages w' Hfetched
             itemss (S (length (wire w))) [] Hitems); [reflexivity | reflexivity |].
  pose proof (fetched_wire env w adAccountsFirstPage pages w' Hfetched). lia.
Qed.

Lemma getAdAccounts_concatenates_pages_witness :
  let w := world0 bumpyWalk in
  let w1 := snd (makeRequest demoEnv adAccountsFirstPage GET JUndefined None false w) in
  let w2 := snd (makeRequest demoEnv "me/adaccounts?limit=100&after=B"
                   GET JUndefined None false w1) in
  Fetched demoEnv w adAccountsFirstPage [firstPage; lastPageWithCursor] w2 /\
  hasNextPage (parsePaginatedResponse (baseUrl demoEnv) lastPageWithCursor) = true /\
  wire w2 = [HttpReply 200 bareEnvelope] /\
  getAdAccounts demoEnv w
    = (Ok (concat [[JObj [("id", JStr "act_7")]; JObj [("id", JStr "act_8")]];
                   [JObj [("id", JStr "act_1")]]]),
       w2).
Proof.
  cbv zeta.
  assert (Hfetched :
            Fetched demoEnv (world0 bumpyWalk) adAccountsFirstPage
              [firstPage; lastPageWithCursor]
              (snd (makeRequest demoEnv "me/adaccounts?limit=100&after=B"
                      GET JUndefined None false
                      (snd (makeRequest demoEnv adAccountsFirstPage
                              GET JUndefined None false (world0 bumpyWalk)))))).
  { eapply fetched_more.
    - vm_compute. reflexivity.
    - reflexivity.
    - reflexivity.
    - apply fetched_last; vm_compute; reflexivity. }
  split; [exact Hfetched|]. split; [reflexivity|].
  split; [vm_compute; reflexivity|].
  apply (getAdAccounts_concatenates_pages demoEnv (world0 bumpyWalk)
           [firstPage; lastPageWithCursor]
           [[JObj [("id", JStr "act_7")]; JObj [("id", JStr "act_8")]];
            [JObj [("id", JStr "act_1")]]]).
  - exact Hfetched.
  - repeat constructor.
Defined.

(** C3 as stated fails: a page that carries a forward cursor but no
    [paging.next] has [hasNextPage = true] once normalized, yet the walk
    ends there: one request, the records of that page only, and the next
    reply of the provider left untouched. *)
Lemma walk_ends_while_cursor_remains :
  let w := world0 [HttpReply 200 lastPageWithCursor; HttpReply 200 bareEnvelope] in
  hasNextPage (parsePaginatedResponse (baseUrl demoEnv) lastPageWithCursor) = true /\
  nextCursor (parsePaginatedResponse (baseUrl demoEnv) lastPageWithCursor) = Some "X" /\
  fst (getAdAccounts demoEnv w) = Ok [JObj [("id", JStr "act_1")]] /\
  wire (snd (getAdAccounts demoEnv w)) = [HttpReply 200 bareEnvelope] /\
  trace (snd (getAdAccounts demoEnv w)) = [pageRequest demoEnv adAccountsFirstPage].
Proof.
  cbv zeta. repeat split; vm_compute; reflexivity.
Qed.

(** The loop of [getAdAccounts] never runs out of iterations: a call that
    succeeds has taken a reply off the wire. *)
Lemma attemptsFrom_error_kind cfg ctx env url method body left :
  forall n w e w',
    attemptsFrom cfg ctx (transportCall env url method body) left n w = (Err e, w') ->
    exists cls f k, e = CallFailed ctx cls f k.
Proof.
  assert (Hraw : forall w e w1,
             transportCall env url method body w = (Err e, w1) -> exists f, e = Raw f).
  { intros w e w1. unfold transportCall, fetch, bind, emit. simpl.
    destruct (wire w) as [|[|s b] rest]; simpl;
      try (intros H; inversion H; eauto; fail).
    unfold handleResponse. destruct ((200 <=? s) && (s <? 300)); simpl;
      intros H; inversion H; eauto. }
  induction left as [|left IH]; intros n w e w' H; simpl in H;
    destruct (transportCall env url method body w) as [[a|e0] w1] eqn:Hop;
    try discriminate;
    destruct (Hraw _ _ _ Hop) as [f ->].
  - inversion H; subst. eauto.
  - destruct (retryable (classify cfg f)).
    + unfold bind, sleep in H. simpl in H. eapply IH; eauto.
    + inversion H; subst. eauto.
Qed.

Lemma getAdAccountsLoop_enough_fuel env :
  forall fuel nextUrl allAccounts w,
    (length (wire w) < fuel)%nat ->
    fst (getAdAccountsLoop env fuel nextUrl allAccounts w) <> Err OutOfFuel.
Proof.
  induction fuel as [|fuel IH]; intros nextUrl allAccounts w Hfuel; [lia|].
  cbn [getAdAccountsLoop].
  destruct nextUrl as [endpoint|]; [|discriminate].
  destruct (given (Some endpoint)); [|discriminate].
  unfold bind.
  destruct (makeRequest env endpoint GET JUndefined None false w)
    as [[response|e] w1] eqn:Hreq.
  - apply makeRequest_returns_reply in Hreq.
    destruct Hreq as [s [before [Hw _]]].
    assert (Hlen : (length (wire w1) < length (wire w))%nat).
    { rewrite Hw, length_app. simpl. lia. }
    unfold getProp. destruct (nullish response); [discriminate|]. simpl.
    destruct (spreadItems (prop "data" response)); [|discriminate].
    destruct (truthy (pageNext response)); [|discriminate].
    destruct (parseUrl env (urlText env (pageNext response))) as [[pathname search]|];
      [|discriminate].
    apply IH. lia.
  - rewrite makeRequest_unfold in Hreq. simpl in Hreq.
    apply attemptsFrom_error_kind in Hreq. destruct Hreq as [cls [f [k ->]]].
    discriminate.
Qed.

Lemma getAdAccounts_total env w : fst (getAdAccounts env w) <> Err OutOfFuel.
Proof. apply getAdAccountsLoop_enough_fuel. lia. Qed.

(** ** Objects and query strings *)

Lemma eqb_comm (a b : string) : String.eqb a b = String.eqb b a.
Proof.
  destruct (String.eqb a b) eqn:H.
  - apply String.eqb_eq in H. subst. symmetry. apply String.eqb_refl.
  - destruct (String.eqb b a) eqn:H'; [|reflexivity].
    apply String.eqb_eq in H'. subst. rewrite String.eqb_refl in H. discriminate.
Qed.

Lemma hasKey_app {A} k (l1 l2 : list (string * A)) :
  hasKey k (l1 ++ l2) = hasKey k l1 || hasKey k l2.
Proof. unfold hasKey. apply existsb_app. Qed.

Lemma hasKey_map {A} k (l : list (string * A)) :
  hasKey k l = existsb (String.eqb k) (map fst l).
Proof.
  induction l as [|[k' v] l IH]; simpl; [reflexivity|].
  rewrite <- IH. reflexivity.
Qed.

Lemma assoc_none {A} k (l : list (string * A)) :
  hasKey k l = false -> assoc k l = None.
Proof.
  induction l as [|[k' v] l IH]; simpl; [reflexivity|].
  destruct (String.eqb k k'); simpl; [discriminate | exact IH].
Qed.

Lemma objSet_fresh k x fs :
  hasKey k fs = false -> objSet k x fs = fs ++ [(k, x)].
Proof.
  induction fs as [|[k' v] fs IH]; simpl; [reflexivity|].
  destruct (String.eqb k k'); simpl; [discriminate|].
  intros H. rewrite IH by exact H. reflexivity.
Qed.

Lemma assoc_objSet_same k x fs : assoc k (objSet k x fs) = Some x.
Proof.
  induction fs as [|[k' v] fs IH]; simpl.
  - rewrite String.eqb_refl. reflexivity.
  - destruct (String.eqb k k') eqn:E; simpl.
    + rewrite String.eqb_refl. reflexivity.
    + rewrite E. exact IH.
Qed.


Lemma objSet_same k x fs : assoc k fs = Some x -> objSet k x fs = fs.
Proof.
  induction fs as [|[k' v] fs IH]; simpl; [discriminate|].
  destruct (String.eqb k k') eqn:E.
  - intros H. inversion H; subst. apply String.eqb_eq in E. subst. reflexivity.
  - intros H. rewrite IH by exact H. reflexivity.
Qed.



Lemma uspSet_fresh k v (l : list (string * string)) :
  hasKey k l = false -> uspSet k v l = l ++ [(k, v)].
Proof.
  induction l as [|[k' v'] l IH]; simpl; [reflexivity|].
  destruct (String.eqb k k'); simpl; [discriminate|].
  intros H. rewrite IH by exact H. reflexivity.
Qed.

Lemma queryFold_pairs env params :
  forall acc,
    distinct (map fst params) = true ->
    (forall kv, In kv params -> hasKey (fst kv) acc = false) ->
    fold_left
      (fun urlParams kv =>
         if nullish (snd kv) then urlParams
         else uspSet (fst kv) (paramText env (snd kv)) urlParams)
      params acc
    = acc ++ map (queryPair env) (List.filter present params).
Proof.
  induction params as [|[k v] params IH]; intros acc Hd Hfresh; simpl.
  - rewrite app_nil_r. reflexivity.
  - simpl in Hd. apply andb_true_iff in Hd. destruct Hd as [Hk Hd].
    apply negb_true_iff in Hk.
    assert (Hrest : forall kv, In kv params -> hasKey (fst kv) acc = false)
      by (intros kv Hin; apply Hfresh; right; exact Hin).
    unfold present at 1. simpl. destruct (nullish v); simpl.
    + apply IH; assumption.
    + rewrite uspSet_fresh by (apply (Hfresh (k, v)); left; reflexivity).
      rewrite IH; [rewrite <- app_assoc; reflexivity | exact Hd |].
      intros [k' v'] Hin. simpl. rewrite hasKey_app. simpl.
      pose proof (Hrest (k', v') Hin) as Hf. simpl in Hf.
      rewrite Hf. simpl. rewrite orb_false_r.
      destruct (String.eqb k' k) eqn:E; [|reflexivity].
      apply String.eqb_eq in E. subst k'.
      assert (Hex : existsb (String.eqb k) (map fst params) = true).
      { apply existsb_exists. exists k. split; [|apply String.eqb_refl].
        apply in_map_iff. exists (k, v'). auto. }
      rewrite Hex in Hk. discriminate.
Qed.

Lemma buildQueryString_pairs env params :
  distinct (map fst params) = true ->
  buildQueryString env params
    = searchParamsToString env
        (map (queryPair env) (List.filter present params)).
Proof.
  intros Hd. unfold buildQueryString.
  rewrite (queryFold_pairs env params [] Hd); auto.
Qed.

Lemma queryFold_all_nullish env params :
  forall acc,
    forallb (fun kv : string * JsVal => nullish (snd kv)) params = true ->
    fold_left
      (fun urlParams kv =>
         if nullish (snd kv) then urlParams
         else uspSet (fst kv) (paramText env (snd kv)) urlParams)
      params acc
    = acc.
Proof.
  induction params as [|[k v] params IH]; intros acc H; simpl; [reflexivity|].
  simpl in H. apply andb_true_iff in H. destruct H as [Hv H].
  rewrite Hv. apply IH. exact H.
Qed.

(** X3.  [buildQueryString] leaves out every entry whose value is
    [undefined] or [null] and encodes the others in the order of the
    object: arrays and objects through [JSON.stringify], anything else
    through [String].  An object with no entry left gives the encoding of
    no parameter at all. *)
Theorem buildQueryString_drops_nullish env params :
  distinct (map fst params) = true ->
  buildQueryString env params
    = searchParamsToString env
        (map (queryPair env) (List.filter present params)) /\
  (forallb (fun kv => nullish (snd kv)) params = true ->
   buildQueryString env params = searchParamsToString env []).
Proof.
  intros Hd. split; [apply buildQueryString_pairs; exact Hd|].
  intros Hall. unfold buildQueryString.
  rewrite queryFold_all_nullish by exact Hall. reflexivity.
Qed.

Lemma buildQueryString_drops_nullish_witness :
  let params := [("name", JStr "Spring"); ("daily_budget", JUndefined);
                 ("special_ad_categories", JArr [JStr "NONE"]);
                 ("stop_time", JNull); ("bid_cap", JNum 500)] in
  distinct (map fst params) = true /\
  buildQueryString demoEnv params
    = searchParamsToString demoEnv
        [("name", jsString demoEnv (JStr "Spring"));
         ("special_ad_categories", jsonStringify demoEnv (JArr [JStr "NONE"]));
         ("bid_cap", jsString demoEnv (JNum 500))] /\
  (forallb (fun kv => nullish (snd kv)) params = true ->
   buildQueryString demoEnv params = searchParamsToString demoEnv []).
Proof.
  cbv zeta. split; [reflexivity|].
  apply (buildQueryString_drops_nullish demoEnv
           [("name", JStr "Spring"); ("daily_budget", JUndefined);
            ("special_ad_categories", JArr [JStr "NONE"]);
            ("stop_time", JNull); ("bid_cap", JNum 500)]).
  reflexivity.
Defined.

#[local] Arguments String.eqb : simpl never.

Lemma existsb_filter_keys (p : string * JsVal -> bool) k l :
  existsb (String.eqb k) (map fst (List.filter p l)) = true ->
  existsb (String.eqb k) (map fst l) = true.
Proof.
  induction l as [|kv l IH]; simpl; [auto|].
  destruct (p kv); simpl.
  - destruct (String.eqb k (fst kv)); simpl; auto.
  - intros H. rewrite (IH H). apply orb_true_r.
Qed.

Lemma distinct_filter (p : string * JsVal -> bool) l :
  distinct (map fst l) = true -> distinct (map fst (List.filter p l)) = true.
Proof.
  induction l as [|kv l IH]; simpl; [auto|].
  intros H. apply andb_true_iff in H. destruct H as [Hk Hd].
  destruct (p kv); simpl; [|apply IH; exact Hd].
  rewrite (IH Hd), andb_true_r.
  apply negb_true_iff in Hk. apply negb_true_iff.
  destruct (existsb (String.eqb (fst kv)) (map fst (List.filter p l))) eqn:E;
    [|reflexivity].
  apply existsb_filter_keys in E. congruence.
Qed.

Lemma notFields_absent l :
  existsb (String.eqb "fields") (map fst (List.filter notFields l)) = false.
Proof.
  induction l as [|[k v] l IH]; simpl; [reflexivity|].
  unfold notFields at 1. simpl.
  destruct (String.eqb "fields" k) eqn:E; simpl; [exact IH|].
  rewrite E. exact IH.
Qed.

Lemma assoc_filter_notFields k l :
  String.eqb "fields" k = false ->
  assoc k (List.filter notFields l) = assoc k l.
Proof.
  intros Hk. induction l as [|[k' v] l IH]; simpl; [reflexivity|].
  unfold notFields at 1. simpl.
  destruct (String.eqb "fields" k') eqn:E; simpl.
  - apply String.eqb_eq in E. subst k'.
    rewrite (eqb_comm k "fields"), Hk. exact IH.
  - destruct (String.eqb k k'); [reflexivity | exact IH].
Qed.

(** Spreading [params] over an object that holds [fields] alone: the
    caller's [fields], when the key is there, takes the place of the
    prepared one, and the other entries follow in their order. *)
Lemma spread_over_fields b :
  forall d acc,
    distinct (map fst b) = true ->
    hasKey "fields" acc = false ->
    (forall kv, In kv b -> hasKey (fst kv) acc = false) ->
    fold_left (fun o kv => objSet (fst kv) (snd kv) o) b (("fields", d) :: acc)
    = ("fields", default d (assoc "fields" b)) :: acc ++ List.filter notFields b.
Proof.
  induction b as [|[k v] b IH]; intros d acc Hd Hacc Hfresh; simpl.
  - rewrite app_nil_r. reflexivity.
  - simpl in Hd. apply andb_true_iff in Hd. destruct Hd as [Hk Hd].
    apply negb_true_iff in Hk.
    assert (Hrest : forall kv, In kv b -> hasKey (fst kv) acc = false)
      by (intros kv Hin; apply Hfresh; right; exact Hin).
    pose proof (Hfresh (k, v) (or_introl eq_refl)) as Hkacc. simpl in Hkacc.
    unfold notFields at 1. simpl.
    destruct (String.eqb "fields" k) eqn:E; simpl.
    + apply String.eqb_eq in E. subst k. simpl.
      rewrite IH by assumption.
      rewrite assoc_none by (rewrite hasKey_map; exact Hk). reflexivity.
    + rewrite (eqb_comm k "fields"), E.
      rewrite objSet_fresh by exact Hkacc.
      rewrite IH; [rewrite <- app_assoc; reflexivity | exact Hd | |].
      * rewrite hasKey_app, Hacc. simpl. rewrite E. reflexivity.
      * intros [k' v'] Hin. simpl. rewrite hasKey_app. simpl.
        pose proof (Hrest (k', v') Hin) as Hf. simpl in Hf.
        rewrite Hf. simpl. rewrite orb_false_r.
        destruct (String.eqb k' k) eqn:E'; [|reflexivity].
        apply String.eqb_eq in E'. subst k'.
        assert (Hex : existsb (String.eqb k) (map fst b) = true).
        { apply existsb_exists. exists k. split; [|apply String.eqb_refl].
          apply in_map_iff. exists (k, v'). auto. }
        rewrite Hex in Hk. discriminate.
Qed.

Lemma insightsQueryParams_shape params joined :
  distinct (map fst params) = true ->
  insightsQueryParams params joined
    = ("fields",
       default (if truthy joined then joined else JStr insightFields)
               (assoc "fields" params))
        :: List.filter notFields params.
Proof.
  intros Hd. unfold insightsQueryParams, objSpread.
  rewrite (spread_over_fields params _ [] Hd) by auto. simpl.
  destruct (truthy (default JUndefined (assoc "time_range" params))) eqn:Ht;
    [|reflexivity].
  destruct (assoc "time_range" params) as [tr|] eqn:Ha; [|discriminate]. simpl.
  f_equal. apply objSet_same.
  rewrite assoc_filter_notFields by reflexivity. exact Ha.
Qed.

(** X7.  In [getInsights] the caller's [fields] wins over the comma-joined
    list prepared for it: the spread of [params] overwrites the [fields]
    entry, so a field list given as an array is sent as its JSON text, and
    the default list is used only when [params] has no [fields] key.  The
    other parameters follow in their order. *)
Theorem getInsights_fields_sent_raw env objectId params xs w :
  distinct (map fst params) = true ->
  assoc "fields" params = Some (JArr xs) ->
  insightsQueryParams params (JStr (joinItems env "," xs))
    = ("fields", JArr xs) :: List.filter notFields params /\
  getInsights env objectId params w
    = bind (makeRequest env
              (objectId +:+ "/insights?" +:+
               searchParamsToString env
                 (("fields", jsonStringify env (JArr xs))
                    :: map (queryPair env)
                         (List.filter present (List.filter notFields params))))
              GET JUndefined None false)
           (fun response => ret (parsePaginatedResponse (baseUrl env) response))
           w.
Proof.
  intros Hd Hf.
  assert (Hshape : insightsQueryParams params (JStr (joinItems env "," xs))
                   = ("fields", JArr xs) :: List.filter notFields params).
  { rewrite insightsQueryParams_shape by exact Hd. rewrite Hf. reflexivity. }
  split; [exact Hshape|].
  unfold getInsights. simpl. rewrite Hf. simpl.
  unfold bind at 1. simpl. rewrite Hshape.
  rewrite buildQueryString_pairs.
  - reflexivity.
  - simpl. rewrite notFields_absent. simpl. apply distinct_filter. exact Hd.
Qed.

Lemma getInsights_fields_sent_raw_witness :
  let params := [("level", JStr "campaign");
                 ("fields", JArr [JStr "spend"; JStr "clicks"]);
                 ("date_preset", JStr "last_7d"); ("limit", JUndefined)] in
  distinct (map fst params) = true /\
  insightsQueryParams params
    (JStr (joinItems demoEnv "," [JStr "spend"; JStr "clicks"]))
    = [("fields", JArr [JStr "spend"; JStr "clicks"]);
       ("level", JStr "campaign"); ("date_preset", JStr "last_7d");
       ("limit", JUndefined)] /\
  getInsights demoEnv "act_1" params (world0 flakyReplies)
    = bind (makeRequest demoEnv
              ("act_1" +:+ "/insights?" +:+
               searchParamsToString demoEnv
                 [("fields", jsonStringify demoEnv (JArr [JStr "spend"; JStr "clicks"]));
                  ("level", "campaign"); ("date_preset", "last_7d")])
              GET JUndefined None false)
           (fun response =>
              ret (parsePaginatedResponse (baseUrl demoEnv) response))
           (world0 flakyReplies).
Proof.
  cbv zeta. split; [reflexivity|].
  apply (getInsights_fields_sent_raw demoEnv "act_1"
           [("level", JStr "campaign");
            ("fields", JArr [JStr "spend"; JStr "clicks"]);
            ("date_preset", JStr "last_7d"); ("limit", JUndefined)]
           [JStr "spend"; JStr "clicks"] (world0 flakyReplies));
    reflexivity.
Defined.

(** ** The requests a call sends *)

Lemma onlySends_no_fetch r evs : existsb isFetch evs = false -> onlySends r evs.
Proof.
  unfold onlySends. induction evs as [|e evs IH]; simpl; intros H; constructor.
  - apply orb_false_iff in H. destruct H as [He _]. rewrite He. discriminate.
  - apply IH. apply orb_false_iff in H. tauto.
Qed.

Lemma onlySends_app r l1 l2 :
  onlySends r l1 -> onlySends r l2 -> onlySends r (l1 ++ l2).
Proof. unfold onlySends. intros. apply Forall_app. auto. Qed.

(** All attempts of the backoff loop send the request of the closure, and
    a success means at least one was sent. *)
Lemma attemptsFrom_requests cfg ctx env url method body left :
  forall n w,
    exists evs,
      trace (snd (attemptsFrom cfg ctx (transportCall env url method body) left n w))
        = trace w ++ evs /\
      onlySends (requestFor env url method body) evs /\
      existsb isQuota evs = false /\
      existsb isFetch evs = true.
Proof.
  set (r := requestFor env url method body).
  assert (Hone : onlySends r [EvFetch r])
    by (constructor; [reflexivity | constructor]).
  induction left as [|left IH]; intros n w; simpl;
    pose proof (transportCall_world env url method body w) as [_ Ht];
    destruct (transportCall env url method body w)
      as [[a|[sc bu|f|cx cl f at_|msg|]] w1]; simpl in *;
    try (exists [EvFetch r]; auto; fail).
  destruct (retryable (classify cfg f)); [|exists [EvFetch r]; auto].
  unfold bind, sleep. simpl.
  destruct (IH (S n)
              (mkWorld (clock w1 + Z.max 0 (backoffDelay cfg n)) (limits w1)
                       (wire w1) (trace w1 ++ [EvSleep (backoffDelay cfg n)])))
    as [evs [He [Hs [Hq Hf]]]].
  simpl in He.
  exists (EvFetch r :: EvSleep (backoffDelay cfg n) :: evs).
  rewrite He, Ht, <- !app_assoc. simpl. repeat split; auto.
  constructor; [reflexivity|]. constructor; [discriminate | exact Hs].
Qed.

Lemma makeRequest_requests env endpoint method body acc wr w :
  exists evs,
    trace (snd (makeRequest env endpoint method body acc wr w)) = trace w ++ evs /\
    onlySends (requestFor env (urlOf env endpoint) method body) evs /\
    match fst (makeRequest env endpoint method body acc wr w) with
    | Ok _ => existsb isFetch evs = true
    | Err _ => True
    end.
Proof.
  destruct (quotaGate_events env acc wr w) as [gate [Hg [Hf _]]].
  rewrite makeRequest_unfold.
  destruct (quotaGate env acc wr w) as [[u|e] w1]; simpl in *.
  - unfold retryWithBackoff.
    destruct (attemptsFrom_requests (backoffConfig env)
                (methodName method +:+ " " +:+ endpoint) env
                (urlOf env endpoint) method body
                (Nat.pred (maxAttempts (backoffConfig env))) 0%nat w1)
      as [evs [He [Hs [_ Hfe]]]].
    exists (gate ++ evs). rewrite He, Hg, <- app_assoc.
    split; [reflexivity|]. split.
    + apply onlySends_app; [apply onlySends_no_fetch; exact Hf | exact Hs].
    + destruct (fst _); [|exact I]. rewrite existsb_app, Hfe. apply orb_true_r.
  - exists gate. split; [exact Hg|]. split; [|exact I].
    apply onlySends_no_fetch. exact Hf.
Qed.

(** X1.  Every outbound request of one [makeRequest] call, first attempt
    and retries alike, is the same request: to base URL, API version and
    endpoint joined by slashes, with the method of the call; a GET carries
    no body and only the authentication headers, whatever body argument was
    passed.  A call that succeeds has sent at least one request. *)
Theorem makeRequest_resends_same_request
    env endpoint method body acc wr w :
  let r := requestFor env (urlOf env endpoint) method body in
  exists evs,
    trace (snd (makeRequest env endpoint method body acc wr w)) = trace w ++ evs /\
    onlySends r evs /\
    req_url r = baseUrl env +:+ "/" +:+ apiVersion env +:+ "/" +:+ endpoint /\
    req_method r = method /\
    (if isGET method
     then req_body r = None /\ req_headers r = authHeaders env
     else True) /\
    match fst (makeRequest env endpoint method body acc wr w) with
    | Ok _ => existsb isFetch evs = true
    | Err _ => True
    end.
Proof.
  cbv zeta.
  destruct (makeRequest_requests env endpoint method body acc wr w)
    as [evs [He [Hs Hok]]].
  exists evs. repeat split; auto.
  - unfold requestFor. destruct (truthy body && negb (isGET method));
      [destruct body|]; reflexivity.
  - unfold requestFor. destruct (truthy body && negb (isGET method));
      [destruct body|]; reflexivity.
  - destruct method; simpl; auto.
    unfold requestFor. simpl. rewrite andb_false_r. auto.
Qed.

(** X16.  [updateCampaign] with no update to make (an empty object, or one
    whose values are all [undefined] or [null]) still goes to the network:
    it POSTs to the campaign with no body and no content type, as the empty
    query string is falsy. *)
Theorem updateCampaign_without_updates env campaignId updates w :
  forallb (fun kv => nullish (snd kv)) updates = true ->
  searchParamsToString env [] = "" ->
  exists tail,
    trace (snd (updateCampaign env campaignId updates w))
      = trace w
          ++ EvFetch (mkRequest (urlOf env campaignId) POST (authHeaders env) None)
          :: tail /\
    onlySends (mkRequest (urlOf env campaignId) POST (authHeaders env) None) tail /\
    existsb isQuota tail = false.
Proof.
  intros Hall Hempty. unfold updateCampaign, buildQueryString.
  rewrite queryFold_all_nullish by exact Hall. rewrite Hempty.
  rewrite makeRequest_unfold. simpl. unfold retryWithBackoff.
  destruct (unmetered_retry env (urlOf env campaignId) POST (JStr "")
              ("POST" +:+ " " +:+ campaignId) w) as [_ [r [tail [Ht Hq]]]].
  destruct (attemptsFrom_requests (backoffConfig env)
              ("POST" +:+ " " +:+ campaignId) env (urlOf env campaignId)
              POST (JStr "") (Nat.pred (maxAttempts (backoffConfig env))) 0%nat w)
    as [evs [He [Hs _]]].
  unfold retryWithBackoff in Ht. rewrite Ht in He.
  apply app_inv_head in He. subst evs.
  inversion Hs as [|e l Hr Htail]; subst.
  specialize (Hr eq_refl). inversion Hr; subst.
  exists tail. split; [exact Ht|]. split; [exact Htail | exact Hq].
Qed.

Lemma updateCampaign_without_updates_witness :
  let updates := [("name", JUndefined); ("status", JNull)] in
  let sent := mkRequest (urlOf demoEnv "120") POST (authHeaders demoEnv) None in
  forallb (fun kv : string * JsVal => nullish (snd kv)) updates = true /\
  searchParamsToString demoEnv [] = "" /\
  exists tail,
    trace (snd (updateCampaign demoEnv "120" updates (world0 flakyReplies)))
      = trace (world0 flakyReplies) ++ EvFetch sent :: tail /\
    onlySends sent tail /\
    existsb isQuota tail = false.
Proof.
  cbv zeta. split; [reflexivity|]. split; [reflexivity|].
  apply (updateCampaign_without_updates demoEnv "120"
           [("name", JUndefined); ("status", JNull)] (world0 flakyReplies));
    reflexivity.
Defined.

(** ** Which operations are metered *)

Lemma quiet_getProp k v : quiet (getProp k v).
Proof. unfold getProp. destruct (nullish v); auto with quiet. Qed.

Lemma quiet_optJoin env v : quiet (optJoin env v).
Proof. destruct v; simpl; auto with quiet. Qed.

Lemma quiet_normalized env (c : M JsVal) :
  quiet c ->
  quiet (bind c (fun response =>
                   ret (parsePaginatedResponse (baseUrl env) response))).
Proof. intros H. apply quiet_bind; auto with quiet. Qed.

Lemma quiet_getAdAccountsLoop env fuel :
  forall nextUrl allAccounts, quiet (getAdAccountsLoop env fuel nextUrl allAccounts).
Proof.
  induction fuel as [|fuel IH]; intros nextUrl allAccounts;
    cbn [getAdAccountsLoop]; [apply quiet_throw|].
  destruct nextUrl as [endpoint|]; [|apply quiet_ret].
  destruct (given (Some endpoint)); [|apply quiet_ret].
  apply quiet_bind; [apply quiet_makeRequest_no_account|]. intros response.
  apply quiet_bind; [apply quiet_getProp|]. intros data.
  destruct (spreadItems data); [|apply quiet_throw].
  destruct (truthy (pageNext response)); [|apply quiet_ret].
  destruct (parseUrl env (urlText env (pageNext response))) as [[pathname search]|];
    [apply IH | apply quiet_throw].
Qed.

(** X8.  The read operations that are given no account id never deal with
    the quota tracker, whatever the provider answers and however often
    they retry or page: [getCampaign], [getInsights] (even for an account's
    insights), [getCustomAudience], [generateAdPreview], [getAdsByCampaign]
    and [getAdAccounts] record no quota check and leave every quota window
    as it was. *)
Theorem reads_without_account_skip_quota env :
  (forall campaignId, quiet (getCampaign env campaignId)) /\
  (forall objectId params, quiet (getInsights env objectId params)) /\
  (forall audienceId, quiet (getCustomAudience env audienceId)) /\
  (forall creativeId adFormat productItemIds,
      quiet (generateAdPreview env creativeId adFormat productItemIds)) /\
  (forall campaignId params, quiet (getAdsByCampaign env campaignId params)) /\
  quiet (getAdAccounts env).
Proof.
  repeat split.
  - apply quiet_makeRequest_no_account.
  - apply quiet_makeRequest_no_account.
  - apply quiet_bind; [apply quiet_optJoin|]. intros joined.
    apply quiet_normalized, quiet_makeRequest_no_account.
  - apply quiet_bind; [apply quiet_optJoin|]. intros joined.
    apply quiet_normalized, quiet_makeRequest_no_account.
  - apply quiet_makeRequest_no_account.
  - apply quiet_makeRequest_no_account.
  - apply quiet_makeRequest_no_account.
  - apply quiet_makeRequest_no_account.
  - apply quiet_normalized, quiet_makeRequest_no_account.
  - apply quiet_normalized, quiet_makeRequest_no_account.
  - apply (quiet_getAdAccountsLoop env (S (length (wire w)))).
  - apply (quiet_getAdAccountsLoop env (S (length (wire w)))).
Qed.

Lemma getAccountId_given accountId : given (Some (getAccountId accountId)) = true.
Proof.
  unfold getAccountId.
  destruct (String.prefix "act_" accountId) eqn:E; [|reflexivity].
  destruct accountId; [discriminate | reflexivity].
Qed.

Lemma makeRequest_metered env endpoint method body a wr :
  given (Some a) = true ->
  metered a wr (makeRequest env endpoint method body (Some a) wr).
Proof.
  intros Ha w.
  destruct (quotaGate_events env (Some a) wr w) as [gate [Hg [_ Hcase]]].
  rewrite Ha in Hcase. destruct Hcase as [a' [g [Heq [-> Hq]]]].
  inversion Heq; subst a'.
  rewrite makeRequest_unfold.
  destruct (quotaGate env (Some a) wr w) as [[u|e] w1]; simpl in *.
  - destruct (quiet_retryWithBackoff (backoffConfig env)
                (transportCall env (urlOf env endpoint) method body)
                (methodName method +:+ " " +:+ endpoint)
                (quiet_transportCall _ _ _ _) w1) as [_ [evs [He Hqe]]].
    exists (g ++ evs). rewrite He, Hg, <- app_assoc. simpl.
    split; [reflexivity|]. rewrite existsb_app, Hq, Hqe. reflexivity.
  - exists g. auto.
Qed.

Lemma metered_bind {A B} a wr (c : M A) (k : A -> M B) :
  metered a wr c -> (forall x, quiet (k x)) -> metered a wr (bind c k).
Proof.
  intros Hc Hk w. unfold bind.
  destruct (Hc w) as [tail [Ht Hq]].
  destruct (c w) as [[x|e] w1]; simpl in *; [|exists tail; auto].
  destruct (Hk x w1) as [_ [evs [He Hqe]]].
  exists (tail ++ evs). rewrite He, Ht, <- app_assoc. simpl.
  split; [reflexivity|]. rewrite existsb_app, Hq, Hqe. reflexivity.
Qed.

Lemma metered_catch {A} a wr (c : M A) (h : Error -> M A) :
  metered a wr c -> (forall e, quiet (h e)) -> metered a wr (catch c h).
Proof.
  intros Hc Hh w. unfold catch.
  destruct (Hc w) as [tail [Ht Hq]].
  destruct (c w) as [[x|e] w1]; simpl in *; [exists tail; auto|].
  destruct (Hh e w1) as [_ [evs [He Hqe]]].
  exists (tail ++ evs). rewrite He, Ht, <- app_assoc. simpl.
  split; [reflexivity|]. rewrite existsb_app, Hq, Hqe. reflexivity.
Qed.

Lemma metered_normalized env a wr (c : M JsVal) :
  metered a wr c ->
  metered a wr (bind c (fun response =>
                          ret (parsePaginatedResponse (baseUrl env) response))).
Proof. intros H. apply metered_bind; auto with quiet. Qed.

(** X9.  The operations that create something under an account,
    [createCampaign], [createCustomAudience], [createLookalikeAudience] and
    [createAdCreative], check the quota of that account before anything
    else, once, as a write call and under the prefixed account id, whether
    or not the caller passed the prefix. *)
Theorem account_writes_metered_as_writes env accountId data :
  metered (getAccountId accountId) true (createCampaign env accountId data) /\
  metered (getAccountId accountId) true (createCustomAudience env accountId data) /\
  metered (getAccountId accountId) true (createLookalikeAudience env accountId data) /\
  metered (getAccountId accountId) true (createAdCreative env accountId data).
Proof.
  repeat split; apply makeRequest_metered, getAccountId_given.
Qed.

(** X10.  The operations that read under an account, [getCampaigns],
    [getCustomAudiences], [getAdCreatives], [getAdsByAccount],
    [getAdAccount], [estimateAudienceSize], [getFundingSources] and
    [getAccountBusiness], check the quota of that account before anything
    else, once, as a read call and under the prefixed account id; the two
    that swallow failures do so after the check, not instead of it. *)
Theorem account_reads_metered_as_reads env accountId :
  (forall p, metered (getAccountId accountId) false (getCampaigns env accountId p)) /\
  (forall fs rest,
      metered (getAccountId accountId) false
              (getCustomAudiences env accountId fs rest)) /\
  (forall fs rest,
      metered (getAccountId accountId) false (getAdCreatives env accountId fs rest)) /\
  (forall params,
      metered (getAccountId accountId) false (getAdsByAccount env accountId params)) /\
  metered (getAccountId accountId) false (getAdAccount env accountId) /\
  (forall targeting goal,
      metered (getAccountId accountId) false
              (estimateAudienceSize env accountId targeting goal)) /\
  metered (getAccountId accountId) false (getFundingSources env accountId) /\
  metered (getAccountId accountId) false (getAccountBusiness env accountId).
Proof.
  assert (Hreq : forall endpoint body,
             metered (getAccountId accountId) false
                     (makeRequest env endpoint GET body
                                  (Some (getAccountId accountId)) false))
    by (intros; apply makeRequest_metered, getAccountId_given).
  split; [intros; apply metered_normalized, Hreq|].
  split; [intros; apply metered_normalized, Hreq|].
  split; [intros; apply metered_normalized, Hreq|].
  split; [intros; apply metered_normalized, Hreq|].
  split; [apply Hreq|].
  split; [intros; apply Hreq|].
  split.
  - apply metered_catch; [|auto with quiet].
    apply metered_bind; [apply Hreq|]. intros result.
    apply quiet_bind; [apply quiet_getProp | auto with quiet].
  - apply metered_catch; [apply Hreq | auto with quiet].
Qed.

Lemma listAccount_given p :
  given (accountId p) = true ->
  (if given (accountId p) then getAccountId <$> accountId p else None)
    = Some (getAccountId (textOf (accountId p))).
Proof.
  intros H. rewrite H. destruct (accountId p); [reflexivity | discriminate].
Qed.

(** X11.  [getAdSets] and [getAds] check quota exactly when an account id
    is among their parameters: then the check comes first, for the prefixed
    account id and as a read, and otherwise no check is made at all.  The
    endpoint is chosen independently: with a campaign id, [getAdSets] reads
    the ad sets of the campaign even when the quota is charged to an
    account. *)
Theorem list_quota_follows_account env p :
  (given (accountId p) = true ->
   metered (getAccountId (textOf (accountId p))) false (getAdSets env p) /\
   metered (getAccountId (textOf (accountId p))) false (getAds env p)) /\
  (given (accountId p) = false ->
   quiet (getAdSets env p) /\ quiet (getAds env p)) /\
  (given (campaignId p) = true ->
   forall w,
     exists evs,
       trace (snd (getAdSets env p w)) = trace w ++ evs /\
       onlySends
         (requestFor env
            (urlOf env ((textOf (campaignId p) +:+ "/adsets") +:+ "?"
                          +:+ listQuery env p adSetFields))
            GET JNull)
         evs).
Proof.
  split; [|split].
  - intros Hacc. unfold getAdSets, getAds.
    rewrite (listAccount_given p Hacc), Hacc. split.
    + destruct (given (campaignId p)); intros w; unfold bind at 1; simpl;
        apply metered_normalized, makeRequest_metered, getAccountId_given.
    + destruct (given (adsetId p)); [|destruct (given (campaignId p))];
        intros w; unfold bind at 1; simpl;
        apply metered_normalized, makeRequest_metered, getAccountId_given.
  - intros Hacc. unfold getAdSets, getAds. rewrite Hacc. split.
    + apply quiet_bind;
        [destruct (given (campaignId p)); auto with quiet|].
      intros endpoint. apply quiet_normalized, quiet_makeRequest_no_account.
    + apply quiet_bind;
        [destruct (given (adsetId p)); [|destruct (given (campaignId p))];
         auto with quiet|].
      intros endpoint. apply quiet_normalized, quiet_makeRequest_no_account.
  - intros Hc w. unfold getAdSets. rewrite Hc. unfold bind at 1. simpl.
    unfold bind.
    destruct (makeRequest_requests env
                ((textOf (campaignId p) +:+ "/adsets") +:+ "?"
                   +:+ listQuery env p adSetFields)
                GET JNull
                (if given (accountId p) then getAccountId <$> accountId p else None)
                false w) as [evs [He [Hs _]]].
    exists evs. split; [|exact Hs].
    destruct (makeRequest env _ GET JNull _ false w) as [[response|e] w1];
      exact He.
Qed.

Lemma list_quota_follows_account_witness :
  given (accountId campaignAndAccount) = true /\
  given (campaignId campaignAndAccount) = true /\
  given (accountId campaignOnly) = false /\
  metered "act_7" false (getAdSets demoEnv campaignAndAccount) /\
  metered "act_7" false (getAds demoEnv campaignAndAccount) /\
  quiet (getAdSets demoEnv campaignOnly) /\
  quiet (getAds demoEnv campaignOnly) /\
  (forall w,
      exists evs,
        trace (snd (getAdSets demoEnv campaignAndAccount w)) = trace w ++ evs /\
        onlySends
          (requestFor demoEnv
             (urlOf demoEnv
                ((textOf (campaignId campaignAndAccount) +:+ "/adsets") +:+ "?"
                   +:+ listQuery demoEnv campaignAndAccount adSetFields))
             GET JNull)
          evs).
Proof.
  destruct (list_quota_follows_account demoEnv campaignAndAccount)
    as [Hm [_ Hc]].
  destruct (list_quota_follows_account demoEnv campaignOnly) as [_ [Hq _]].
  destruct (Hm eq_refl) as [Hm1 Hm2]. destruct (Hq eq_refl) as [Hq1 Hq2].
  repeat (split; [reflexivity|]).
  split; [exact Hm1|]. split; [exact Hm2|].
  split; [exact Hq1|]. split; [exact Hq2|].
  exact (Hc eq_refl).
Defined.

(** ** Creating an ad set *)

Lemma getCampaign_lookup env campaignId w :
  limits (snd (getCampaign env campaignId w)) = limits w /\
  exists evs,
    trace (snd (getCampaign env campaignId w)) = trace w ++ evs /\
    onlySends (requestFor env (urlOf env (campaignEndpoint campaignId))
                 GET JUndefined) evs /\
    existsb isQuota evs = false.
Proof.
  unfold getCampaign. fold (campaignEndpoint campaignId).
  destruct (quiet_makeRequest_no_account env (campaignEndpoint campaignId)
              GET JUndefined false w) as [Hl [evs [He Hq]]].
  destruct (makeRequest_requests env (campaignEndpoint campaignId)
              GET JUndefined None false w) as [evs' [He' [Hs _]]].
  split; [exact Hl|]. exists evs. split; [exact He|]. split; [|exact Hq].
  rewrite He in He'. apply app_inv_head in He'. subst evs'. exact Hs.
Qed.

(** X5.  [createAdSet] sends nothing but the lookup of the campaign when it
    cannot tell the account: a failed lookup is handed to the caller as it
    is, and a campaign without [account_id] gives the error that the
    account cannot be determined.  In both cases no POST is made, no quota
    is checked and the quota windows are untouched. *)
Theorem createAdSet_needs_campaign_account env campaignId adSetData w :
  (forall e w1,
      getCampaign env campaignId w = (Err e, w1) ->
      createAdSet env campaignId adSetData w = (Err e, w1)) /\
  (forall campaign w1,
      getCampaign env campaignId w = (Ok campaign, w1) ->
      nullish campaign = false ->
      truthy (prop "account_id" campaign) = false ->
      createAdSet env campaignId adSetData w = (Err noCampaignAccount, w1)) /\
  limits (snd (getCampaign env campaignId w)) = limits w /\
  exists evs,
    trace (snd (getCampaign env campaignId w)) = trace w ++ evs /\
    onlySends (requestFor env (urlOf env (campaignEndpoint campaignId))
                 GET JUndefined) evs /\
    existsb isQuota evs = false.
Proof.
  split; [|split; [|apply getCampaign_lookup]].
  - intros e w1 H. unfold createAdSet, bind. rewrite H. reflexivity.
  - intros campaign w1 H Hn Ht. unfold createAdSet, bind, getProp.
    rewrite H, Hn. simpl. rewrite Ht. reflexivity.
Qed.

Lemma createAdSet_needs_campaign_account_witness :
  let w := world0 [HttpReply 200 (JObj [("id", JStr "120"); ("name", JStr "Spring")]);
                   HttpReply 200 (JObj [("id", JStr "900")])] in
  let w1 := snd (getCampaign demoEnv "120" w) in
  createAdSet demoEnv "120" [("name", JStr "Set A")] w = (Err noCampaignAccount, w1) /\
  wire w1 = [HttpReply 200 (JObj [("id", JStr "900")])] /\
  limits w1 = limits w /\
  exists evs,
    trace w1 = trace w ++ evs /\
    onlySends (requestFor demoEnv (urlOf demoEnv (campaignEndpoint "120"))
                 GET JUndefined) evs /\
    existsb isQuota evs = false.
Proof.
  cbv zeta.
  destruct (createAdSet_needs_campaign_account demoEnv "120"
              [("name", JStr "Set A")]
              (world0 [HttpReply 200 (JObj [("id", JStr "120"); ("name", JStr "Spring")]);
                       HttpReply 200 (JObj [("id", JStr "900")])]))
    as [_ [Hnone Hlookup]].
  split.
  - apply (Hnone (JObj [("id", JStr "120"); ("name", JStr "Spring")]));
      vm_compute; reflexivity.
  - split; [vm_compute; reflexivity | exact Hlookup].
Defined.

(** X6.  When the campaign carries an [account_id], [createAdSet] checks
    the quota of that account (prefixed, as a write) after the lookup and
    before any POST, and every request it sends from then on is the POST to
    the ad sets of that account, whose form holds the campaign id passed to
    [createAdSet], whatever [campaign_id] the ad set data carried. *)
Theorem createAdSet_posts_under_campaign_account
    env campaignId adSetData w campaign w1 a :
  getCampaign env campaignId w = (Ok campaign, w1) ->
  prop "account_id" campaign = JStr a ->
  String.eqb a "" = false ->
  let requestData :=
    objSet "campaign_id" (JStr campaignId) (objSpread [] adSetData) in
  assoc "campaign_id" requestData = Some (JStr campaignId) /\
  exists tail,
    trace (snd (createAdSet env campaignId adSetData w))
      = trace w1 ++ EvQuota (getAccountId a) true :: tail /\
    existsb isQuota tail = false /\
    onlySends
      (requestFor env (urlOf env (getAccountId a +:+ "/adsets")) POST
         (JStr (buildQueryString env requestData)))
      tail.
Proof.
  intros Hlookup Hacc Ha requestData.
  split; [apply assoc_objSet_same|].
  assert (Hn : nullish campaign = false)
    by (destruct campaign; try reflexivity; discriminate).
  unfold createAdSet, bind, getProp. rewrite Hlookup, Hn. simpl.
  rewrite Hacc. simpl. rewrite Ha. simpl.
  rewrite catch_rethrow. fold requestData.
  destruct (makeRequest_metered env (getAccountId a +:+ "/adsets") POST
              (JStr (buildQueryString env requestData)) (getAccountId a) true
              (getAccountId_given a) w1) as [tail [Ht Hq]].
  destruct (makeRequest_requests env (getAccountId a +:+ "/adsets") POST
              (JStr (buildQueryString env requestData))
              (Some (getAccountId a)) true w1) as [evs [He [Hs _]]].
  rewrite Ht in He. apply app_inv_head in He. subst evs.
  inversion Hs; subst.
  exists tail. auto.
Qed.

Lemma createAdSet_posts_under_campaign_account_witness :
  let campaign := JObj [("id", JStr "120"); ("account_id", JStr "7")] in
  let w := world0 [HttpReply 200 campaign; HttpReply 200 (JObj [("id", JStr "900")])] in
  let adSetData := [("name", JStr "Set A"); ("campaign_id", JStr "999")] in
  let requestData := objSet "campaign_id" (JStr "120") (objSpread [] adSetData) in
  fst (createAdSet demoEnv "120" adSetData w) = Ok (JObj [("id", JStr "900")]) /\
  assoc "campaign_id" requestData = Some (JStr "120") /\
  exists tail,
    trace (snd (createAdSet demoEnv "120" adSetData w))
      = trace (snd (getCampaign demoEnv "120" w))
          ++ EvQuota (getAccountId "7") true :: tail /\
    existsb isQuota tail = false /\
    onlySends
      (requestFor demoEnv (urlOf demoEnv (getAccountId "7" +:+ "/adsets")) POST
         (JStr (buildQueryString demoEnv requestData)))
      tail.
Proof.
  cbv zeta. split; [vm_compute; reflexivity|].
  apply (createAdSet_posts_under_campaign_account demoEnv "120"
           [("name", JStr "Set A"); ("campaign_id", JStr "999")]
           (world0 [HttpReply 200 (JObj [("id", JStr "120"); ("account_id", JStr "7")]);
                    HttpReply 200 (JObj [("id", JStr "900")])])
           (JObj [("id", JStr "120"); ("account_id", JStr "7")])
           (snd (getCampaign demoEnv "120"
                   (world0 [HttpReply 200 (JObj [("id", JStr "120"); ("account_id", JStr "7")]);
                            HttpReply 200 (JObj [("id", JStr "900")])])))
           "7").
  - vm_compute. reflexivity.
  - reflexivity.
  - reflexivity.
Defined.

(** ** Query objects of the ad listings *)




(** ** Account ids and bearer tokens *)

Lemma allDigits_not_account s :
  matchesDigits s = true -> String.prefix "act_" s = false.
Proof.
  unfold matchesDigits. destruct s as [|c s]; [reflexivity|].
  cbn [allDigits]. intros H.
  apply andb_true_iff in H. destruct H as [_ H].
  apply andb_true_iff in H. destruct H as [Hc _].
  cbn [String.prefix]. destruct (ascii_dec "a" c) as [<-|]; [|reflexivity].
  discriminate Hc.
Qed.

(** X4.  [extractAccountIdFromObjectId] returns its argument exactly when
    the argument starts with the account prefix, and nothing otherwise: an
    id made of digits only (a campaign, ad set or ad) never yields an
    account, and no other account id than the argument itself is ever
    produced. *)
Theorem extractAccountId_only_prefixed objectId :
  extractAccountIdFromObjectId objectId
    = (if String.prefix "act_" objectId then Some objectId else None) /\
  (matchesDigits objectId = true ->
   extractAccountIdFromObjectId objectId = None) /\
  extractAccountIdFromObjectId (getAccountId objectId)
    = Some (getAccountId objectId).
Proof.
  assert (Hchar : extractAccountIdFromObjectId objectId
                  = (if String.prefix "act_" objectId then Some objectId else None)).
  { unfold extractAccountIdFromObjectId.
    destruct (matchesDigits objectId) eqn:E; [|reflexivity].
    rewrite (allDigits_not_account _ E). reflexivity. }
  split; [exact Hchar|]. split.
  - intros E. unfold extractAccountIdFromObjectId. rewrite E. reflexivity.
  - unfold extractAccountIdFromObjectId, getAccountId.
    destruct (String.prefix "act_" objectId) eqn:E.
    + destruct (matchesDigits objectId) eqn:D.
      * rewrite (allDigits_not_account _ D) in E. discriminate.
      * rewrite E. reflexivity.
    + assert (Hd : matchesDigits ("act_" +:+ objectId) = false) by reflexivity.
      rewrite Hd. cbn [String.app String.prefix].
      repeat match goal with
             | |- context [ascii_dec ?a ?b] =>
                 destruct (ascii_dec a b); [|congruence]
             end.
      destruct objectId; reflexivity.
Qed.

Lemma substring_whole s : String.substring 0 (String.length s) s = s.
Proof. induction s as [|c s IH]; simpl; [reflexivity|]. rewrite IH. reflexivity. Qed.

(** X15.  [extractBearerToken] and the Bearer prefix are inverse to each
    other: the token of a header is [t] exactly when the header is the
    prefix followed by [t].  So a header without the prefix, an empty one
    and a missing one give no token, and the prefix alone gives the empty
    token. *)
Theorem extractBearerToken_inverts_prefix authHeader t :
  extractBearerToken authHeader = Some t <-> authHeader = Some ("Bearer " +:+ t).
Proof.
  split.
  - destruct authHeader as [h|]; [|discriminate]. unfold extractBearerToken.
    destruct (given (Some h)); [|discriminate]. simpl.
    destruct (String.prefix "Bearer " h) eqn:E; [|discriminate].
    do 7 (destruct h as [|? h]; [discriminate E|];
          cbn [String.prefix] in E;
          match type of E with
          | (if ascii_dec ?a ?b then _ else _) = true =>
              destruct (ascii_dec a b) as [<-|]; [|discriminate E]
          end).
    intros H. inversion H. simpl.
    rewrite Nat.sub_0_r, substring_whole. reflexivity.
  - intros ->. unfold extractBearerToken. simpl.
    rewrite Nat.sub_0_r, substring_whole. destruct t; reflexivity.
Qed.

(** ** The CSV export *)

Lemma NoDup_snoc (l : list string) k :
  List.NoDup l -> ~ In k l -> List.NoDup (l ++ [k]).
Proof.
  induction 1 as [|x l Hx Hnd IH]; simpl; intros Hk.
  - constructor; [intros [] | constructor].
  - constructor.
    + rewrite in_app_iff. simpl. intros [H | [H | []]]; [auto|].
      apply Hk. left. symmetry. exact H.
    + apply IH. intros H. apply Hk. right. exact H.
Qed.

Lemma addKey_spec headers k :
  List.NoDup headers ->
  List.NoDup (addKey headers k) /\
  (forall x, In x (addKey headers k) <-> In x headers \/ x = k).
Proof.
  intros Hnd. unfold addKey.
  destruct (existsb (String.eqb k) headers) eqn:E.
  - split; [exact Hnd|]. intros x. split; [auto|].
    intros [H | ->]; [exact H|].
    apply existsb_exists in E. destruct E as [y [Hy Heq]].
    apply String.eqb_eq in Heq. subst y. exact Hy.
  - split.
    + apply NoDup_snoc; [exact Hnd|]. intros Hin.
      assert (Ht : existsb (String.eqb k) headers = true).
      { apply existsb_exists. exists k. split; [exact Hin | apply String.eqb_refl]. }
      congruence.
    + intros x. rewrite in_app_iff. simpl. intuition congruence.
Qed.

Lemma addKeys_spec keys :
  forall headers,
    List.NoDup headers ->
    List.NoDup (fold_left addKey keys headers) /\
    (forall x, In x (fold_left addKey keys headers) <-> In x headers \/ In x keys).
Proof.
  induction keys as [|k keys IH]; intros headers Hnd; simpl.
  - split; [exact Hnd|]. intros x. tauto.
  - destruct (addKey_spec headers k Hnd) as [Hnd' Hin'].
    destruct (IH (addKey headers k) Hnd') as [Hnd'' Hin''].
    split; [exact Hnd''|]. intros x. rewrite Hin'', Hin'.
    intuition congruence.
Qed.

Lemma csvHeadersFrom_spec data :
  forall headers,
    List.NoDup headers ->
    List.NoDup
      (fold_left (fun hs (row : list (string * JsVal)) => fold_left addKey (map fst row) hs)
                 data headers) /\
    (forall x,
        In x (fold_left (fun hs (row : list (string * JsVal)) =>
                           fold_left addKey (map fst row) hs)
                        data headers)
        <-> In x headers \/ exists row, In row data /\ In x (map fst row)).
Proof.
  induction data as [|row data IH]; intros headers Hnd; simpl.
  - split; [exact Hnd|]. intros x. split; [auto|].
    intros [H | [row [[] _]]]. exact H.
  - destruct (addKeys_spec (map fst row) headers Hnd) as [Hnd' Hin'].
    destruct (IH _ Hnd') as [Hnd'' Hin''].
    split; [exact Hnd''|]. intros x. rewrite Hin'', Hin'. split.
    + intros [[H | H] | [r [Hr Hx]]]; eauto.
    + intros [H | [r [[<- | Hr] Hx]]]; eauto.
Qed.

Lemma filter_skip_member (hs : list string) k l :
  existsb (String.eqb k) hs = true ->
  List.filter (fun x => negb (existsb (String.eqb x) hs))
    (List.filter (fun x => negb (String.eqb k x)) l)
  = List.filter (fun x => negb (existsb (String.eqb x) hs)) l.
Proof.
  intros Hk. induction l as [|x l IH]; [reflexivity|].
  cbn [List.filter]. destruct (String.eqb k x) eqn:E; cbn [negb List.filter].
  - apply String.eqb_eq in E. subst x. rewrite Hk. cbn [negb]. exact IH.
  - rewrite IH. reflexivity.
Qed.

Lemma filter_after_adding (hs : list string) k l :
  List.filter (fun x => negb (existsb (String.eqb x) (hs ++ [k]))) l
  = List.filter (fun x => negb (existsb (String.eqb x) hs))
      (List.filter (fun x => negb (String.eqb k x)) l).
Proof.
  induction l as [|x l IH]; [reflexivity|].
  cbn [List.filter]. rewrite existsb_app. cbn [existsb].
  rewrite orb_false_r, (eqb_comm x k).
  destruct (String.eqb k x); cbn [negb List.filter].
  - rewrite orb_true_r. cbn [negb]. exact IH.
  - rewrite orb_false_r, IH. reflexivity.
Qed.

Lemma filter_all (l : list string) :
  List.filter (fun x => negb (existsb (String.eqb x) [])) l = l.
Proof.
  induction l as [|x l IH]; [reflexivity|].
  simpl. f_equal. exact IH.
Qed.

(** Adding keys one by one to a set that keeps insertion order appends the
    new ones in order of first appearance. *)
Lemma addKeys_firstOccurrences keys :
  forall headers,
    fold_left addKey keys headers
    = headers
        ++ List.filter (fun x => negb (existsb (String.eqb x) headers))
             (firstOccurrences keys).
Proof.
  induction keys as [|k keys IH]; intros headers;
    cbn [fold_left firstOccurrences List.filter].
  - rewrite app_nil_r. reflexivity.
  - unfold addKey at 2. destruct (existsb (String.eqb k) headers) eqn:E;
      cbn [negb]; rewrite IH.
    + rewrite filter_skip_member by exact E. reflexivity.
    + rewrite <- app_assoc, filter_after_adding. reflexivity.
Qed.

Lemma csvHeadersFrom_keys (data : list (list (string * JsVal))) :
  forall headers,
    fold_left (fun hs (row : list (string * JsVal)) => fold_left addKey (map fst row) hs)
              data headers
    = fold_left addKey (concat (map (map fst) data)) headers.
Proof.
  induction data as [|row data IH]; intros headers; [reflexivity|].
  cbn [fold_left map concat]. rewrite fold_left_app. apply IH.
Qed.

Lemma csvHeaders_firstOccurrences data :
  csvHeaders data = firstOccurrences (concat (map (map fst) data)).
Proof.
  unfold csvHeaders.
  rewrite csvHeadersFrom_keys, addKeys_firstOccurrences. apply filter_all.
Qed.

Lemma escapeQuotes_app a b :
  escapeQuotes (a +:+ b) = escapeQuotes a +:+ escapeQuotes b.
Proof.
  induction a as [|c a IH]; [reflexivity|].
  change (escapeQuotes (String c (a +:+ b))
          = escapeQuotes (String c a) +:+ escapeQuotes b).
  cbn [escapeQuotes]. rewrite IH.
  destruct (Ascii.eqb c (ascii_of_nat 34)); reflexivity.
Qed.

(** X14.  The CSV export has one column per key that occurs in any record,
    each key once and in order of first appearance.  For at least one
    record its text is the header row (the keys joined by commas) and one
    row per record, joined by newlines, each row holding one quoted cell
    per column, joined by commas.  The cell of a key the record lacks or
    holds as [null] or [undefined] is empty, an object or array gives its
    JSON text as it is, and any other value its string with every double
    quote doubled.  No record at all gives the empty text, without header. *)
Theorem convertToCSV_rows_match_header env data :
  let columns := firstOccurrences (concat (map (map fst) data)) in
  csvHeaders data = columns /\
  (forall row rest,
      data = row :: rest ->
      convertToCSV env data
        = String.concat (String (ascii_of_nat 10) EmptyString)
            (String.concat "," columns :: map (csvLine env columns) data)) /\
  (forall headers row,
      csvLine env headers row
        = String.concat ","
            (map (fun header =>
                    String (ascii_of_nat 34)
                      (csvCell env row header
                         +:+ String (ascii_of_nat 34) EmptyString))
                 headers)) /\
  convertToCSV env [] = "" /\
  (forall row header,
      csvCell env row header
        = match assoc header row with
          | None | Some JUndefined | Some JNull => ""
          | Some (JArr xs) => jsonStringify env (JArr xs)
          | Some (JObj fs) => jsonStringify env (JObj fs)
          | Some value => escapeQuotes (jsString env value)
          end) /\
  (forall a b, escapeQuotes (a +:+ b) = escapeQuotes a +:+ escapeQuotes b) /\
  (forall c,
      escapeQuotes (String c EmptyString)
        = if Ascii.eqb c (ascii_of_nat 34)
          then String c (String c EmptyString)
          else String c EmptyString) /\
  List.NoDup (csvHeaders data) /\
  (forall k,
      In k (csvHeaders data) <-> exists row, In row data /\ In k (map fst row)) /\
  Forall (fun cells => length cells = length (csvHeaders data)) (csvCells env data) /\
  length (csvRows env data) = S (length data) /\
  (forall row header,
      assoc header row = None \/ assoc header row = Some JNull ->
      csvCell env row header = "").
Proof.
  cbv zeta.
  destruct (csvHeadersFrom_spec data [] (List.NoDup_nil _)) as [Hnd Hin].
  split; [apply csvHeaders_firstOccurrences|].
  split.
  { intros row rest ->. unfold convertToCSV, csvRows, csvCells.
    rewrite <- csvHeaders_firstOccurrences. rewrite map_map. reflexivity. }
  split.
  { intros headers row. unfold csvLine. rewrite map_map. reflexivity. }
  split; [reflexivity|].
  split.
  { intros row header. unfold csvCell.
    destruct (assoc header row) as [[]|]; reflexivity. }
  split; [apply escapeQuotes_app|].
  split.
  { intros c. cbn [escapeQuotes].
    destruct (Ascii.eqb c (ascii_of_nat 34)); reflexivity. }
  split; [exact Hnd|]. split.
  - intros k. unfold csvHeaders. rewrite Hin. simpl. tauto.
  - split.
    + unfold csvCells. apply List.Forall_forall. intros cells Hc.
      apply in_map_iff in Hc. destruct Hc as [row [<- _]].
      apply length_map.
    + split.
      * unfold csvRows, csvCells. simpl. rewrite !length_map. reflexivity.
      * intros row header [H | H]; unfold csvCell; rewrite H; reflexivity.
Qed.

(** ** The follow-up request of the account walk *)

Lemma relativePath_slash s search :
  relativePath ("/" +:+ s) search = s +:+ search.
Proof.
  unfold relativePath. simpl. rewrite Nat.sub_0_r, substring_whole. reflexivity.
Qed.

(** X2.  When the [paging.next] URL of a page has the path of the
    configured API version followed by the rest of the endpoint, as the
    client's own request URLs have, the follow-up request of
    [getAdAccounts] goes to base URL, version, version again, and then the
    rest of the path with the query: [makeRequest] prefixes the version to
    an endpoint that already starts with it.  The walk itself goes on: the
    records of both pages are returned. *)
Theorem getAdAccounts_follow_up_repeats_version
    env page last items lastItems w rest tail search :
  truthy (pageNext page) = true ->
  parseUrl env (urlText env (pageNext page))
    = Some ("/" +:+ (apiVersion env +:+ "/" +:+ tail), search) ->
  truthy (pageNext last) = false ->
  pageItems page = Some items ->
  pageItems last = Some lastItems ->
  wire w = HttpReply 200 page :: HttpReply 200 last :: rest ->
  fst (getAdAccounts env w) = Ok (items ++ lastItems) /\
  trace (snd (getAdAccounts env w))
    = trace w
        ++ [pageRequest env adAccountsFirstPage;
            EvFetch (mkRequest
                       (baseUrl env +:+ "/" +:+ apiVersion env +:+ "/"
                          +:+ ((apiVersion env +:+ "/" +:+ tail) +:+ search))
                       GET (authHeaders env) None)].
Proof.
  intros Hnext Hurl Hlast Hitems Hlitems Hw.
  assert (Hwalk : Walk env [page; last]
                    [relativePath ("/" +:+ (apiVersion env +:+ "/" +:+ tail)) search]).
  { apply walk_next; [exact Hnext | exact Hurl | | apply walk_last; exact Hlast].
    rewrite relativePath_slash.
    destruct (apiVersion env); reflexivity. }
  unfold getAdAccounts.
  rewrite (getAdAccountsLoop_walk env _ _ Hwalk [items; lastItems]
             (S (length (wire w))) adAccountsFirstPage [] w rest).
  - simpl. rewrite app_nil_r, relativePath_slash. split; reflexivity.
  - repeat constructor; assumption.
  - reflexivity.
  - rewrite Hw. simpl. lia.
  - rewrite Hw. reflexivity.
Qed.

Lemma getAdAccounts_follow_up_repeats_version_witness :
  let w := world0 [HttpReply 200 versionedFirstPage; HttpReply 200 bareEnvelope] in
  truthy (pageNext versionedFirstPage) = true /\
  parseUrl demoEnv (urlText demoEnv (pageNext versionedFirstPage))
    = Some ("/v23.0/me/adaccounts", "?limit=100&after=B") /\
  fst (getAdAccounts demoEnv w)
    = Ok ([JObj [("id", JStr "act_7")]]
            ++ [JObj [("id", JStr "c1")]; JObj [("id", JStr "c2")];
                JObj [("id", JStr "c3")]]) /\
  trace (snd (getAdAccounts demoEnv w))
    = trace w
        ++ [pageRequest demoEnv adAccountsFirstPage;
            EvFetch (mkRequest
                       "https://graph.facebook.com/v23.0/v23.0/me/adaccounts?limit=100&after=B"
                       GET (authHeaders demoEnv) None)].
Proof.
  cbv zeta. split; [reflexivity|]. split; [reflexivity|].
  apply (getAdAccounts_follow_up_repeats_version demoEnv versionedFirstPage
           bareEnvelope [JObj [("id", JStr "act_7")]]
           [JObj [("id", JStr "c1")]; JObj [("id", JStr "c2")]; JObj [("id", JStr "c3")]]
           (world0 [HttpReply 200 versionedFirstPage; HttpReply 200 bareEnvelope])
           [] "me/adaccounts" "?limit=100&after=B"); reflexivity.
Defined.

